(** * The chat streaming client ([useWebSocket]) and its caller

    A shallow embedding of the [useWebSocket] hook and of the chat page's
    [handleSendMessage], followed by the properties of the streaming
    client that hold on it.

    Execution model.  The program is single threaded and event driven:
    every handler ([connect], [disconnect], [sendMessage], the socket's
    [onopen] / [onclose] / [onmessage], the ping timer) runs to completion
    on the committed state before the next one starts.  A [useState]
    setter is therefore modelled as an immediate update of the
    corresponding field, and a functional updater [setMessages(prev => e)]
    as [e] applied to the current list.

    Strings are sequences of code units below 256 ([String.string]).
    [Date.now()] and [new Date()] are inputs of [sendMessage] (a [Clock]).
    [JSON.parse] is a built-in and is taken as a parameter of [onmessage].
    [console.log] / [console.error] have no effect on the state and are
    left out. *)

From Stdlib Require Import ZArith Lia Ascii String.
From stdpp Require Import base option list strings pretty gmap.

Local Open Scope string_scope.
Local Open Scope list_scope.

(** ** Data model *)

Inductive Role := user | assistant.

Definition Role_eqb (a b : Role) : bool :=
  match a, b with
  | user, user | assistant, assistant => true
  | _, _ => false
  end.

(** [interface ChatMessage]; [isStreaming?: boolean] is [None] when the
    field is absent; [timestamp] is the epoch time of the [Date]. *)
Module ChatMessage.
Record t := mk {
  id : string;
  role : Role;
  content : string;
  isStreaming : option bool;
  timestamp : Z
}.

(** [{ ...m, content: c }] *)
Definition with_content (c : string) (m : t) : t :=
  mk (id m) (role m) c (isStreaming m) (timestamp m).

(** [{ ...m, isStreaming: b }] *)
Definition with_isStreaming (b : bool) (m : t) : t :=
  mk (id m) (role m) (content m) (Some b) (timestamp m).
End ChatMessage.

(** The four counters of [current_usage] and of [limits]. *)
Module Usage.
Record t := mk { burst : Z; per_chat : Z; hourly : Z; daily : Z }.
End Usage.

(** [interface WebSocketMessage]: every field but [type] is optional. *)
Module WebSocketMessage.
Record t := mk {
  type : string;
  content : option string;
  chunk_id : option Z;
  delta : option string;
  status : option string;
  user_id : option string;
  timestamp : option string;
  current_usage : option Usage.t;
  limits : option Usage.t;
  arguments : option string;
  call_id : option string;
  name : option string
}.

(** A frame that carries only its discriminator. *)
Definition bare (ty : string) : t :=
  mk ty None None None None None None None None None None None.
End WebSocketMessage.

(** [UseWebSocketReturn['rateLimits']] when it is not [null]. *)
Module RateLimits.
Record t := mk { current : Usage.t; limits : Usage.t }.
End RateLimits.

(** ** The browser's WebSocket objects *)

Inductive ReadyState := CONNECTING | OPEN | CLOSING | CLOSED.

Definition ReadyState_eqb (a b : ReadyState) : bool :=
  match a, b with
  | CONNECTING, CONNECTING | OPEN, OPEN
  | CLOSING, CLOSING | CLOSED, CLOSED => true
  | _, _ => false
  end.

(** The two objects the client serialises with [JSON.stringify] and
    sends. *)
Inductive Outbound :=
  | MessageFrame (chat_id message : string)
  | PingFrame.

Module WebSocket.
Record t := mk {
  url : string;
  readyState : ReadyState;
  sent : list Outbound
}.

(** [new WebSocket(url)] *)
Definition new (u : string) : t := mk u CONNECTING [].

(** [ws.close()]: starts the closing handshake, and does nothing on a
    socket that is already closing or closed. *)
Definition close (ws : t) : t :=
  match readyState ws with
  | CLOSING | CLOSED => ws
  | CONNECTING | OPEN => mk (url ws) CLOSING (sent ws)
  end.

(** [ws.send(data)] on an open socket. *)
Definition send (data : Outbound) (ws : t) : t :=
  mk (url ws) (readyState ws) (sent ws ++ [data]).

Definition with_readyState (r : ReadyState) (ws : t) : t :=
  mk (url ws) r (sent ws).
End WebSocket.

(** ** The state of one [useWebSocket] instance

    The four [useState] cells, the two refs, and the WebSocket objects
    constructed so far.  [wsRef] holds a reference: the index of a socket
    in [sockets], so that a socket that [wsRef] no longer points to is
    still there, with its handlers attached. *)
Record Hook := mkHook {
  messages : list ChatMessage.t;
  isConnected : bool;
  isStreaming : bool;
  rateLimits : option RateLimits.t;
  wsRef : option nat;
  currentMessageRef : string;
  sockets : list WebSocket.t
}.

Definition setMessages (f : list ChatMessage.t -> list ChatMessage.t)
    (s : Hook) : Hook :=
  mkHook (f (messages s)) (isConnected s) (isStreaming s) (rateLimits s)
         (wsRef s) (currentMessageRef s) (sockets s).

Definition setIsConnected (b : bool) (s : Hook) : Hook :=
  mkHook (messages s) b (isStreaming s) (rateLimits s)
         (wsRef s) (currentMessageRef s) (sockets s).

Definition setIsStreaming (b : bool) (s : Hook) : Hook :=
  mkHook (messages s) (isConnected s) b (rateLimits s)
         (wsRef s) (currentMessageRef s) (sockets s).

Definition setRateLimits (r : option RateLimits.t) (s : Hook) : Hook :=
  mkHook (messages s) (isConnected s) (isStreaming s) r
         (wsRef s) (currentMessageRef s) (sockets s).

Definition set_wsRef (r : option nat) (s : Hook) : Hook :=
  mkHook (messages s) (isConnected s) (isStreaming s) (rateLimits s)
         r (currentMessageRef s) (sockets s).

Definition set_currentMessageRef (b : string) (s : Hook) : Hook :=
  mkHook (messages s) (isConnected s) (isStreaming s) (rateLimits s)
         (wsRef s) b (sockets s).

Definition set_sockets (h : list WebSocket.t) (s : Hook) : Hook :=
  mkHook (messages s) (isConnected s) (isStreaming s) (rateLimits s)
         (wsRef s) (currentMessageRef s) h.

(** The state on mount. *)
Definition initial : Hook := mkHook [] false false None None "" [].

(** The socket [wsRef.current] points to. *)
Definition current_socket (s : Hook) : option WebSocket.t :=
  match wsRef s with
  | Some i => sockets s !! i
  | None => None
  end.

(** ** [connect] *)

Definition WS_BASE : string := "ws://localhost:8000".

(** [token] is what [localStorage.getItem('access_token')] returns; [null]
    and the empty string are falsy. *)
Definition connect (token : option string) (s : Hook) : Hook :=
  match token with
  | None => s
  | Some "" => s
  | Some tok =>
      let ws := WebSocket.new (WS_BASE +:+ "/ws/chat?token=" +:+ tok) in
      set_wsRef (Some (length (sockets s)))
                (set_sockets (sockets s ++ [ws]) s)
  end.

(** ** [disconnect] *)

Definition disconnect (s : Hook) : Hook :=
  match wsRef s with
  | Some i => set_wsRef None (set_sockets (alter WebSocket.close i (sockets s)) s)
  | None => s
  end.

(** ** [sendMessage] *)

(** The clock readings of one call, in evaluation order. *)
Record Clock := mkClock {
  user_id_now : Z;
  user_date : Z;
  assistant_id_now : Z;
  assistant_date : Z
}.

Definition userMessage (message : string) (clk : Clock) : ChatMessage.t :=
  ChatMessage.mk (pretty (user_id_now clk)) user message None (user_date clk).

Definition assistantMessage (clk : Clock) : ChatMessage.t :=
  ChatMessage.mk (pretty (assistant_id_now clk + 1)%Z) assistant ""
                 (Some true) (assistant_date clk).

Definition sendMessage (chatId message : string) (clk : Clock) (s : Hook)
    : Hook :=
  match wsRef s with
  | None => s
  | Some i =>
      match sockets s !! i with
      | None => s
      | Some ws =>
          if ReadyState_eqb (WebSocket.readyState ws) OPEN then
            let s1 :=
              setMessages
                (fun prev => prev ++ [userMessage message clk; assistantMessage clk])
                s in
            let s2 := setIsStreaming true s1 in
            let s3 := set_currentMessageRef "" s2 in
            set_sockets
              (alter (WebSocket.send (MessageFrame chatId message)) i (sockets s3))
              s3
          else s
      end
  end.

(** ** [ws.onmessage] *)

(** What evaluating an expression yields: a value, or a thrown
    exception. *)
Inductive outcome (A : Type) :=
  | Returned (a : A)
  | Thrown (e : string).
Arguments Returned {A} a.
Arguments Thrown {A} e.

(** [try { body } catch (error) { console.error(...) }] with the state [s]
    the handler started from: the handler of the hook changes nothing
    before the only expression of its body that can throw. *)
Definition try_catch (s : Hook) (body : outcome Hook) : outcome Hook :=
  match body with
  | Returned s' => Returned s'
  | Thrown _ => Returned s
  end.

(** [prev[prev.length - 1]] and [prev.slice(0, -1)] are [last prev] and
    [removelast prev]. *)

(** [lastMessage?.role === 'assistant' && lastMessage.isStreaming] *)
Definition is_open_placeholder (lastMessage : option ChatMessage.t) : bool :=
  match lastMessage with
  | Some m =>
      Role_eqb (ChatMessage.role m) assistant
      && match ChatMessage.isStreaming m with Some b => b | None => false end
  | None => false
  end.

(** [lastMessage?.role === 'assistant'] *)
Definition is_assistant (lastMessage : option ChatMessage.t) : bool :=
  match lastMessage with
  | Some m => Role_eqb (ChatMessage.role m) assistant
  | None => false
  end.

(** The updater of the [text_chunk] case; [buffer] is
    [currentMessageRef.current]. *)
Definition chunk_updater (buffer : string) (prev : list ChatMessage.t)
    : list ChatMessage.t :=
  match last prev with
  | Some lastMessage =>
      if is_open_placeholder (Some lastMessage)
      then removelast prev ++ [ChatMessage.with_content buffer lastMessage]
      else prev
  | None => prev
  end.

(** The updater of the [message_complete] case. *)
Definition complete_updater (prev : list ChatMessage.t)
    : list ChatMessage.t :=
  match last prev with
  | Some lastMessage =>
      if is_assistant (Some lastMessage)
      then removelast prev ++ [ChatMessage.with_isStreaming false lastMessage]
      else prev
  | None => prev
  end.

(** The [switch (data.type)] of the handler. *)
Definition dispatch (data : WebSocketMessage.t) (s : Hook) : Hook :=
  let ty := WebSocketMessage.type data in
  if String.eqb ty "connection" then s
  else if String.eqb ty "rate_limit_info" then
    match WebSocketMessage.current_usage data, WebSocketMessage.limits data with
    | Some cu, Some li => setRateLimits (Some (RateLimits.mk cu li)) s
    | _, _ => s
    end
  else if String.eqb ty "message_received" then s
  else if String.eqb ty "text_chunk" then
    let s1 :=
      set_currentMessageRef
        (currentMessageRef s +:+ default "" (WebSocketMessage.content data)) s in
    setMessages (chunk_updater (currentMessageRef s1)) s1
  else if String.eqb ty "tool_executing" then s
  else if String.eqb ty "tool_complete" then s
  else if String.eqb ty "message_complete" then
    let s1 := setIsStreaming false s in
    let s2 := setMessages complete_updater s1 in
    set_currentMessageRef "" s2
  else if String.eqb ty "rate_limit_exceeded" then setIsStreaming false s
  else if String.eqb ty "error" then setIsStreaming false s
  else if String.eqb ty "pong" then s
  else s.

Section Decoder.

(** [JSON.parse] at the type the handler gives its result
    ([const data: WebSocketMessage]): the decoded frame, or the exception
    it throws on a text that is not JSON. *)
Variable JSON_parse : string -> outcome WebSocketMessage.t.

(** The body of the [try] block. *)
Definition onmessage_body (raw : string) (s : Hook) : outcome Hook :=
  match JSON_parse raw with
  | Returned data => Returned (dispatch data s)
  | Thrown e => Thrown e
  end.

Definition onmessage (raw : string) (s : Hook) : outcome Hook :=
  try_catch s (onmessage_body raw s).

End Decoder.

(** [ws.onopen] and [ws.onclose] *)
Definition onopen (s : Hook) : Hook := setIsConnected true s.
Definition onclose (s : Hook) : Hook := setIsConnected false s.

(** The callback of the 30 second interval, which exists while
    [isConnected] is true. *)
Definition ping (s : Hook) : Hook :=
  if isConnected s then
    match wsRef s with
    | Some i =>
        match sockets s !! i with
        | Some ws =>
            if ReadyState_eqb (WebSocket.readyState ws) OPEN
            then set_sockets (alter (WebSocket.send PingFrame) i (sockets s)) s
            else s
        | None => s
        end
    | None => s
    end
  else s.

(** ** The chat page: [handleSendMessage] *)

(** [String.prototype.trim] on code units below 256: the white space and
    line terminator code units are 9 to 13, 32 and 160. *)
Definition is_space (c : ascii) : bool :=
  let n := nat_of_ascii c in
  (Nat.leb 9 n && Nat.leb n 13) || Nat.eqb n 32 || Nat.eqb n 160.

Fixpoint trim_start (s : string) : string :=
  match s with
  | String c r => if is_space c then trim_start r else s
  | EmptyString => EmptyString
  end.

Fixpoint trim_end (s : string) : string :=
  match s with
  | String c r =>
      match trim_end r with
      | EmptyString => if is_space c then EmptyString else String c EmptyString
      | r' => String c r'
      end
  | EmptyString => EmptyString
  end.

Definition trim (s : string) : string := trim_end (trim_start s).

(** The two [useState] cells of the page that the handler reads. *)
Record ChatPage := mkChatPage {
  inputValue : string;
  selectedChat : option string
}.

(** In JavaScript the empty string is falsy, and so is [null]. *)
Definition truthy (s : string) : bool :=
  match s with EmptyString => false | String _ _ => true end.

Definition truthy_or_null (s : option string) : bool :=
  match s with Some v => truthy v | None => false end.

Definition handleSendMessage (clk : Clock) (p : ChatPage) (s : Hook)
    : ChatPage * Hook :=
  if negb (truthy (trim (inputValue p)))
     || negb (truthy_or_null (selectedChat p))
     || isStreaming s
  then (p, s)
  else (mkChatPage "" (selectedChat p),
        sendMessage (default "" (selectedChat p)) (trim (inputValue p)) clk s).

(** ** Events

    What the browser delivers to a socket.  The [open] event takes a
    connecting socket to [OPEN], the [close] event takes a socket that is
    not yet closed to [CLOSED], and a [message] event is delivered only to
    an open socket.  Every socket ever constructed by [connect] carries the
    same three handlers. *)

Definition transport_opened (i : nat) (s : Hook) : Hook :=
  match sockets s !! i with
  | Some ws =>
      if ReadyState_eqb (WebSocket.readyState ws) CONNECTING
      then onopen (set_sockets (alter (WebSocket.with_readyState OPEN) i (sockets s)) s)
      else s
  | None => s
  end.

Definition transport_closed (i : nat) (s : Hook) : Hook :=
  match sockets s !! i with
  | Some ws =>
      if ReadyState_eqb (WebSocket.readyState ws) CLOSED
      then s
      else onclose (set_sockets (alter (WebSocket.with_readyState CLOSED) i (sockets s)) s)
  | None => s
  end.

(** The state a handler leaves behind; an exception that escaped the
    handler would leave the state it started from. *)
Definition settle (s : Hook) (r : outcome Hook) : Hook :=
  match r with
  | Returned s' => s'
  | Thrown _ => s
  end.

Inductive event :=
  | Connect (token : option string)
  | Disconnect
  | SendMessage (chatId message : string) (clk : Clock)
  | HandleSendMessage (clk : Clock) (p : ChatPage)
  | Opened (i : nat)
  | Closed (i : nat)
  | FrameReceived (i : nat) (raw : string)
  | PingTick.

Section Run.

Variable JSON_parse : string -> outcome WebSocketMessage.t.

Definition frame_received (i : nat) (raw : string) (s : Hook) : Hook :=
  match sockets s !! i with
  | Some ws =>
      if ReadyState_eqb (WebSocket.readyState ws) OPEN
      then settle s (onmessage JSON_parse raw s)
      else s
  | None => s
  end.

Definition step (s : Hook) (e : event) : Hook :=
  match e with
  | Connect token => connect token s
  | Disconnect => disconnect s
  | SendMessage chatId message clk => sendMessage chatId message clk s
  | HandleSendMessage clk p => snd (handleSendMessage clk p s)
  | Opened i => transport_opened i s
  | Closed i => transport_closed i s
  | FrameReceived i raw => frame_received i raw s
  | PingTick => ping s
  end.

Definition run (s : Hook) (es : list event) : Hook := foldl step s es.

End Run.

(** ** Observations *)

(** The frames sent so far, socket by socket. *)
Definition frames_sent (s : Hook) : list (list Outbound) :=
  WebSocket.sent <$> sockets s.

(** The readyState of every socket constructed so far. *)
Definition sessions (s : Hook) : list ReadyState :=
  WebSocket.readyState <$> sockets s.

(** [wsRef.current && wsRef.current.readyState === WebSocket.OPEN] *)
Definition session_open (s : Hook) : bool :=
  match current_socket s with
  | Some ws => ReadyState_eqb (WebSocket.readyState ws) OPEN
  | None => false
  end.

(** [m.isStreaming] is true. *)
Definition streaming (m : ChatMessage.t) : bool :=
  match ChatMessage.isStreaming m with Some b => b | None => false end.

Definition streaming_count (l : list ChatMessage.t) : nat :=
  length (filter (fun m => streaming m = true) l).

(** At most one message is streaming, and if there is one it is the last
    element. *)
Definition at_most_one_streaming_last (l : list ChatMessage.t) : Prop :=
  streaming_count l <= 1
  /\ (streaming_count l = 1 -> streaming <$> last l = Some true).

(** Frames by their discriminator. *)
Definition text_chunk (d : string) : WebSocketMessage.t :=
  WebSocketMessage.mk "text_chunk" (Some d)
    None None None None None None None None None None.

Definition message_complete : WebSocketMessage.t :=
  WebSocketMessage.bare "message_complete".

Definition rate_limit_info (cu li : option Usage.t) : WebSocketMessage.t :=
  WebSocketMessage.mk "rate_limit_info" None
    None None None None None cu li None None None.

(** ** Sample states *)

Definition clock0 : Clock := mkClock 1700000000000 1700000000000 1700000000000 1700000000000.
Definition clock1 : Clock := mkClock 1700000060000 1700000060000 1700000060001 1700000060001.

(** After [connect] and the socket's [open] event. *)
Definition connected : Hook := transport_opened 0 (connect (Some "tok") initial).

(** One turn started, one chunk received. *)
Definition mid_turn : Hook :=
  dispatch (text_chunk "Hel") (sendMessage "c1" "Hi" clock0 connected).

Definition rate_limit_exceeded : WebSocketMessage.t :=
  WebSocketMessage.bare "rate_limit_exceeded".

Definition error : WebSocketMessage.t := WebSocketMessage.bare "error".

(** The frame [f] is a [text_chunk] whose [content] is the delta [d]. *)
Definition carries (f : WebSocketMessage.t) (d : string) : Prop :=
  WebSocketMessage.type f = "text_chunk" /\ WebSocketMessage.content f = Some d.

(** d1 + ... + dn *)
Definition concat_deltas (ds : list string) : string :=
  foldr String.append "" ds.

(** Frames handled in the order they are delivered. *)
Definition deliver (s : Hook) (fs : list WebSocketMessage.t) : Hook :=
  foldl (fun st f => dispatch f st) s fs.

(** The two frames that end a turn without [message_complete]. *)
Definition terminal_error (d : WebSocketMessage.t) : bool :=
  String.eqb (WebSocketMessage.type d) "rate_limit_exceeded"
  || String.eqb (WebSocketMessage.type d) "error".

(** The events of a run in which the page is the only caller of
    [sendMessage] and no turn is ended by a [rate_limit_exceeded] or
    [error] frame. *)
Definition page_driven (JSON_parse : string -> outcome WebSocketMessage.t)
    (e : event) : bool :=
  match e with
  | SendMessage _ _ _ => false
  | FrameReceived _ raw =>
      match JSON_parse raw with
      | Returned d => negb (terminal_error d)
      | Thrown _ => true
      end
  | _ => true
  end.

(** No message is streaming. *)
Definition all_sealed (l : list ChatMessage.t) : Prop :=
  Forall (fun m => streaming m = false) l.

(** What a page driven run maintains: only the last message can be
    streaming, a streaming message is an assistant message, and nothing is
    streaming while the flag is down. *)
Record turn_inv (s : Hook) : Prop := mk_turn_inv {
  inv_front : all_sealed (removelast (messages s));
  inv_role : Forall (fun m => streaming m = true -> ChatMessage.role m = assistant)
                    (messages s);
  inv_flag : isStreaming s = false -> all_sealed (messages s)
}.

(** While a placeholder is open it holds the buffer. *)
Definition buffer_inv (s : Hook) : Prop :=
  forall m,
    last (messages s) = Some m ->
    is_open_placeholder (Some m) = true ->
    ChatMessage.content m = currentMessageRef s.

(** ** A decoder for the examples

    It knows the wire text of a few frames and throws on every other
    text. *)

Definition dq : string := String (ascii_of_nat 34) EmptyString.

Definition quoted (s : string) : string := dq +:+ s +:+ dq.

Definition wire (d : WebSocketMessage.t) : string :=
  "{" +:+ quoted "type" +:+ ":" +:+ quoted (WebSocketMessage.type d)
  +:+ match WebSocketMessage.content d with
      | Some c => "," +:+ quoted "content" +:+ ":" +:+ quoted c
      | None => ""
      end
  +:+ "}".

Definition sample_frames : list WebSocketMessage.t :=
  [ text_chunk "Hello"; text_chunk " there"; message_complete;
    rate_limit_exceeded; error; WebSocketMessage.bare "pong" ].

Definition sample_parse (raw : string) : outcome WebSocketMessage.t :=
  match List.find (fun d => String.eqb (wire d) raw) sample_frames with
  | Some d => Returned d
  | None => Thrown "SyntaxError"
  end.

Definition usage1 : Usage.t := Usage.mk 1 0 3 10.
Definition limits1 : Usage.t := Usage.mk 5 50 100 1000.
Definition usage2 : Usage.t := Usage.mk 2 1 4 11.
Definition limits2 : Usage.t := Usage.mk 6 60 120 1200.

(** The end-to-end scenario: connect, send "Hi" to chat c1, two chunks,
    completion. *)
Definition scenario : list event :=
  [ Connect (Some "tok"); Opened 0;
    HandleSendMessage clock0 (mkChatPage " Hi " (Some "c1"));
    FrameReceived 0 (wire (text_chunk "Hello"));
    FrameReceived 0 (wire (text_chunk " there"));
    FrameReceived 0 (wire message_complete) ].

(** ** Relations between two states of the store *)

(** What is left of the messages of [s] in [s']: every message is still
    at its index, with its id, role and timestamp; and it is the same
    message if it was a user message, or sealed, or not the last one. *)
Definition keeps (s s' : Hook) : Prop :=
  forall i m,
    messages s !! i = Some m ->
    exists m',
      messages s' !! i = Some m'
      /\ ChatMessage.id m' = ChatMessage.id m
      /\ ChatMessage.role m' = ChatMessage.role m
      /\ ChatMessage.timestamp m' = ChatMessage.timestamp m
      /\ (ChatMessage.role m = user
          \/ ChatMessage.isStreaming m = Some false
          \/ S i < length (messages s) ->
          m' = m).

(** The discriminators whose case changes the state. *)
Definition effective (ty : string) : bool :=
  String.eqb ty "rate_limit_info" || String.eqb ty "text_chunk"
  || String.eqb ty "message_complete" || String.eqb ty "rate_limit_exceeded"
  || String.eqb ty "error".

(** ** The chat page's connection effect

    [useEffect(() => { if (isAuthenticated) connect();
                       return () => disconnect(); }, [isAuthenticated, ...])].
    When [isAuthenticated] changes, React runs the cleanup of the previous
    run and then the effect, in one commit; on the first run there is no
    cleanup, and [wsRef] is still [null], on which [disconnect] does
    nothing.  On unmount the cleanup of the page runs, and the cleanup of
    the hook's own effect, which is [disconnect] too. *)

Definition connect_effect (isAuthenticated : bool) (token : option string)
    (s : Hook) : Hook :=
  if isAuthenticated then connect token s else s.

Inductive page_event :=
  | Render (isAuthenticated : bool) (token : option string)
  | Unmount
  | FromHook (e : event).

Definition page_step (JSON_parse : string -> outcome WebSocketMessage.t)
    (s : Hook) (pe : page_event) : Hook :=
  match pe with
  | Render isAuthenticated token =>
      connect_effect isAuthenticated token (disconnect s)
  | Unmount => disconnect (disconnect s)
  | FromHook e => step JSON_parse s e
  end.

Definition page_run (JSON_parse : string -> outcome WebSocketMessage.t)
    (s : Hook) (pes : list page_event) : Hook :=
  foldl (page_step JSON_parse) s pes.

(** The page calls [connect] from its effect only. *)
Definition connect_in_effect_only (pe : page_event) : bool :=
  match pe with
  | FromHook (Connect _) => false
  | _ => true
  end.

(** A socket that is connecting or open. *)
Definition live (ws : WebSocket.t) : bool :=
  match WebSocket.readyState ws with
  | CONNECTING | OPEN => true
  | CLOSING | CLOSED => false
  end.

(** ** The chat page: the list of chats

    The handlers of the list await a request before they call their
    setters.  What a handler read when it was created (its closure) is the
    argument [seen]; the cells at the time its setters run are [now].  The
    response of [chatApi.rename] and of [chatApi.delete] is not looked
    at. *)

Module Chat.
Record t := mk {
  chat_id : string;
  title : string;
  created_at : string;
  last_activity_at : string;
  message_count : Z
}.

(** [{ ...chat, title: ti }] *)
Definition with_title (ti : string) (chat : t) : t :=
  mk (chat_id chat) ti (created_at chat) (last_activity_at chat)
     (message_count chat).
End Chat.

(** The cells [chats], [selectedChat], [editingChatId] and [editTitle];
    [selectedChat] is the cell that [handleSendMessage] reads. *)
Module ChatList.
Record t := mk {
  chats : list Chat.t;
  selectedChat : option string;
  editingChatId : option string;
  editTitle : string
}.
End ChatList.

(** [{ data?: T; error?: string }] *)
Module ApiResponse.
Record t (T : Type) := mk {
  data : option T;
  error : option string
}.
Arguments mk {T} data error.
Arguments data {T} _.
Arguments error {T} _.
End ApiResponse.

(** The [chat] of the response of [chatApi.create]. *)
Record CreatedChat := mkCreatedChat {
  created_chat_id : string;
  created_title : string
}.

(** [now1] and [now2] are the two [new Date().toISOString()]. *)
Definition handleCreateChat (resp : ApiResponse.t CreatedChat) (now1 now2 : string)
    (now : ChatList.t) : ChatList.t :=
  match ApiResponse.data resp with
  | Some chat =>
      ChatList.mk
        (Chat.mk (created_chat_id chat) (created_title chat) now1 now2 0
           :: ChatList.chats now)
        (Some (created_chat_id chat))
        (ChatList.editingChatId now) (ChatList.editTitle now)
  | None => now
  end.

Definition handleRenameChat (chatId : string) (seen now : ChatList.t)
    : ChatList.t :=
  if negb (truthy (trim (ChatList.editTitle seen))) then now
  else
    ChatList.mk
      (List.map
         (fun chat =>
            if String.eqb (Chat.chat_id chat) chatId
            then Chat.with_title (ChatList.editTitle seen) chat
            else chat)
         (ChatList.chats now))
      (ChatList.selectedChat now) None "".

(** [chats[0]?.chat_id || null] *)
Definition first_chat_id (chats : list Chat.t) : option string :=
  match chats with
  | chat :: _ => if truthy (Chat.chat_id chat) then Some (Chat.chat_id chat) else None
  | [] => None
  end.

(** [selectedChat === chatId] *)
Definition is_selected (selectedChat : option string) (chatId : string) : bool :=
  match selectedChat with
  | Some c => String.eqb c chatId
  | None => false
  end.

Definition handleDeleteChat (chatId : string) (seen now : ChatList.t)
    : ChatList.t :=
  ChatList.mk
    (List.filter (fun chat => negb (String.eqb (Chat.chat_id chat) chatId))
       (ChatList.chats now))
    (if is_selected (ChatList.selectedChat seen) chatId
     then first_chat_id (ChatList.chats seen)
     else ChatList.selectedChat now)
    (ChatList.editingChatId now) (ChatList.editTitle now).

(** White space at the two ends of a string. *)
Definition starts_with_space (s : string) : bool :=
  match s with
  | String c _ => is_space c
  | EmptyString => false
  end.

Fixpoint ends_with_space (s : string) : bool :=
  match s with
  | EmptyString => false
  | String c EmptyString => is_space c
  | String _ r => ends_with_space r
  end.

(** ** The authentication context

    [localStorage] is a map from keys to strings.  The response of each
    request is an argument of the function that awaits it. *)

Module User.
Record t := mk {
  user_id : string;
  email : string;
  username : string;
  full_name : string;
  phone : option string;
  investment_style : option string;
  risk_tolerance : option string;
  interested_sectors : option (list string);
  account_status : option string
}.
End User.

(** The [data] of [authApi.login]. *)
Record LoginData := mkLoginData {
  access_token : string;
  refresh_token : string;
  login_user_id : string;
  login_email : string;
  login_username : string;
  login_full_name : string
}.

(** [data.user] as a [User]. *)
Definition login_user (d : LoginData) : User.t :=
  User.mk (login_user_id d) (login_email d) (login_username d)
          (login_full_name d) None None None None None.

(** The [data] of [userApi.getProfile]. *)
Record ProfileData := mkProfileData {
  profile_user_id : string;
  profile_email : string;
  profile_username : string;
  profile_full_name : string;
  profile_phone : option string;
  profile_investment_style : option string;
  profile_risk_tolerance : option string;
  profile_interested_sectors : option (list string);
  profile_account_status : string
}.

Definition profile_user (d : ProfileData) : User.t :=
  User.mk (profile_user_id d) (profile_email d) (profile_username d)
          (profile_full_name d) (profile_phone d) (profile_investment_style d)
          (profile_risk_tolerance d) (profile_interested_sectors d)
          (Some (profile_account_status d)).

(** The two cells of [AuthProvider], and the browser's [localStorage]. *)
Module Auth.
Record t := mk {
  user : option User.t;
  isLoading : bool;
  localStorage : gmap string string
}.

(** [isAuthenticated: !!user] *)
Definition isAuthenticated (st : t) : bool :=
  match user st with Some _ => true | None => false end.
End Auth.

(** [{ success: boolean; error?: string }] *)
Record AuthResult := mkAuthResult {
  success : bool;
  result_error : option string
}.

Definition remove_tokens (ls : gmap string string) : gmap string string :=
  delete "refresh_token" (delete "access_token" ls).

(** [token] is what [localStorage.getItem('access_token')] returned when
    the function was called; [st] is the state when the response is
    there. *)
Definition checkAuth (token : option string)
    (profile : ApiResponse.t ProfileData) (st : Auth.t) : Auth.t :=
  if truthy_or_null token then
    match ApiResponse.data profile with
    | Some d =>
        if negb (truthy_or_null (ApiResponse.error profile))
        then Auth.mk (Some (profile_user d)) false (Auth.localStorage st)
        else Auth.mk (Auth.user st) false (remove_tokens (Auth.localStorage st))
    | None => Auth.mk (Auth.user st) false (remove_tokens (Auth.localStorage st))
    end
  else Auth.mk (Auth.user st) false (Auth.localStorage st).

Definition login (resp : ApiResponse.t LoginData) (st : Auth.t)
    : AuthResult * Auth.t :=
  if truthy_or_null (ApiResponse.error resp) then (mkAuthResult false (ApiResponse.error resp), st)
  else
    match ApiResponse.data resp with
    | Some d =>
        (mkAuthResult true None,
         Auth.mk (Some (login_user d)) (Auth.isLoading st)
           (<["refresh_token" := refresh_token d]>
              (<["access_token" := access_token d]> (Auth.localStorage st))))
    | None => (mkAuthResult false (Some "Unknown error occurred"), st)
    end.

Definition logout (st : Auth.t) : Auth.t :=
  Auth.mk None (Auth.isLoading st) (remove_tokens (Auth.localStorage st)).

Definition refreshUser (profile : ApiResponse.t ProfileData) (st : Auth.t) : Auth.t :=
  match ApiResponse.data profile with
  | Some d => Auth.mk (Some (profile_user d)) (Auth.isLoading st) (Auth.localStorage st)
  | None => st
  end.

(** What the chat page's effect does in the authentication state [st]:
    [isAuthenticated] comes from the context, and [connect] reads the
    token in [localStorage]. *)
Definition render_with (st : Auth.t) : page_event :=
  Render (Auth.isAuthenticated st) (Auth.localStorage st !! "access_token").

(** * Properties *)

(** ** Strings and lists *)

Lemma append_assoc (a b c : string) : (a +:+ b) +:+ c = a +:+ (b +:+ c).
Proof.
  induction a as [|x a IH]; [reflexivity|].
  change (String x ((a +:+ b) +:+ c) = String x (a +:+ (b +:+ c))).
  now rewrite IH.
Qed.

Lemma append_empty_r (a : string) : a +:+ "" = a.
Proof.
  induction a as [|x a IH]; [reflexivity|].
  change (String x (a +:+ "") = String x a).
  now rewrite IH.
Qed.

Lemma last_removelast {A} (l : list A) (x : A) :
  last l = Some x -> l = removelast l ++ [x].
Proof.
  intros H. apply last_Some in H as [l' ->].
  now rewrite removelast_last.
Qed.

Lemma truthy_false (s : string) : truthy s = false -> s = "".
Proof. destruct s; [reflexivity | discriminate]. Qed.

(** ** The branches of the switch *)

Ltac switch_on H := unfold dispatch; rewrite H; simpl.

Lemma dispatch_text_chunk d s :
  WebSocketMessage.type d = "text_chunk" ->
  dispatch d s =
    let buffer := currentMessageRef s +:+ default "" (WebSocketMessage.content d) in
    setMessages (chunk_updater buffer) (set_currentMessageRef buffer s).
Proof. intros H. now switch_on H. Qed.

Lemma dispatch_message_complete d s :
  WebSocketMessage.type d = "message_complete" ->
  dispatch d s =
    set_currentMessageRef "" (setMessages complete_updater (setIsStreaming false s)).
Proof. intros H. now switch_on H. Qed.

Lemma dispatch_rate_limit_info d s :
  WebSocketMessage.type d = "rate_limit_info" ->
  dispatch d s =
    match WebSocketMessage.current_usage d, WebSocketMessage.limits d with
    | Some cu, Some li => setRateLimits (Some (RateLimits.mk cu li)) s
    | _, _ => s
    end.
Proof. intros H. now switch_on H. Qed.

Lemma dispatch_terminal_error d s :
  terminal_error d = true -> dispatch d s = setIsStreaming false s.
Proof.
  unfold terminal_error. intros H.
  apply orb_true_iff in H as [H|H]; apply String.eqb_eq in H; now switch_on H.
Qed.

(** Apart from [text_chunk], [message_complete] and the two terminal
    errors, no frame touches the message store or the streaming flag. *)
Lemma dispatch_other d s :
  WebSocketMessage.type d <> "text_chunk" ->
  WebSocketMessage.type d <> "message_complete" ->
  terminal_error d = false ->
  messages (dispatch d s) = messages s
  /\ isStreaming (dispatch d s) = isStreaming s
  /\ currentMessageRef (dispatch d s) = currentMessageRef s.
Proof.
  intros Hc Hm He. unfold terminal_error in He.
  apply orb_false_iff in He as [He1 He2].
  apply String.eqb_neq in Hc, Hm.
  unfold dispatch. rewrite Hc, Hm, He1, He2.
  repeat match goal with
         | |- context [if ?b then _ else _] => destruct b
         | |- context [match ?o with Some _ => _ | None => _ end] => destruct o
         end; repeat split; reflexivity.
Qed.

(** ** [sendMessage] *)

Lemma sendMessage_not_open chatId text clk s :
  session_open s = false -> sendMessage chatId text clk s = s.
Proof.
  unfold session_open, current_socket, sendMessage.
  destruct (wsRef s) as [i|]; [|reflexivity].
  destruct (sockets s !! i) as [ws|]; [|reflexivity].
  now intros ->.
Qed.

Lemma sendMessage_open chatId text clk s :
  session_open s = true ->
  messages (sendMessage chatId text clk s)
    = messages s ++ [userMessage text clk; assistantMessage clk]
  /\ isStreaming (sendMessage chatId text clk s) = true
  /\ currentMessageRef (sendMessage chatId text clk s) = ""
  /\ rateLimits (sendMessage chatId text clk s) = rateLimits s.
Proof.
  unfold session_open, current_socket, sendMessage.
  destruct (wsRef s) as [i|]; [|discriminate].
  destruct (sockets s !! i) as [ws|]; [|discriminate].
  intros ->. simpl. repeat split.
Qed.

(** The store and the flag after [sendMessage], whatever the session. *)
Lemma sendMessage_cases chatId text clk s :
  sendMessage chatId text clk s = s
  \/ (messages (sendMessage chatId text clk s)
        = messages s ++ [userMessage text clk; assistantMessage clk]
      /\ isStreaming (sendMessage chatId text clk s) = true).
Proof.
  destruct (session_open s) eqn:E.
  - right. destruct (sendMessage_open chatId text clk s E) as (? & ? & _). now split.
  - left. now apply sendMessage_not_open.
Qed.

(** C1, as stated, fails: [sendMessage] does not read the streaming flag.
    In the state [mid_turn] the flag is up and the session is open; a
    second [sendMessage] appends two more messages and sends a frame. *)
Lemma sendMessage_while_streaming :
  isStreaming mid_turn = true
  /\ length (messages mid_turn) = 2
  /\ length (messages (sendMessage "c1" "again" clock1 mid_turn)) = 4
  /\ frames_sent mid_turn = [[MessageFrame "c1" "Hi"]]
  /\ frames_sent (sendMessage "c1" "again" clock1 mid_turn)
     = [[MessageFrame "c1" "Hi"; MessageFrame "c1" "again"]].
Proof. vm_compute. repeat split. Qed.

(** The frame goes out on the current socket. *)
Lemma sendMessage_open_frame chatId text clk s :
  session_open s = true ->
  current_socket (sendMessage chatId text clk s)
    = WebSocket.send (MessageFrame chatId text) <$> current_socket s.
Proof.
  unfold session_open, current_socket, sendMessage.
  destruct (wsRef s) as [i|] eqn:Ei; [|discriminate].
  destruct (sockets s !! i) as [ws|] eqn:Ew; [|discriminate].
  intros ->. simpl. now rewrite Ei, list_lookup_alter_eq, Ew.
Qed.

(** C1 (amended): in every state in which the streaming flag is true, the
    chat page's [handleSendMessage], through which the page calls
    [sendMessage], changes neither the page nor the hook: the message
    store is unchanged (no user message, no placeholder) and no outbound
    frame is sent.  [sendMessage] itself does not read the flag: in such a
    state it leaves the state unchanged when the current session is not
    open, and when it is open it appends the user message and the
    placeholder and sends the frame on the current socket. *)
Theorem send_while_streaming clk p chatId text s :
  isStreaming s = true ->
  (handleSendMessage clk p s = (p, s)
   /\ messages (snd (handleSendMessage clk p s)) = messages s
   /\ frames_sent (snd (handleSendMessage clk p s)) = frames_sent s)
  /\ (session_open s = false -> sendMessage chatId text clk s = s)
  /\ (session_open s = true ->
      messages (sendMessage chatId text clk s)
        = messages s ++ [userMessage text clk; assistantMessage clk]
      /\ current_socket (sendMessage chatId text clk s)
         = WebSocket.send (MessageFrame chatId text) <$> current_socket s).
Proof.
  intros H. split; [|split].
  - unfold handleSendMessage. rewrite H, !orb_true_r. simpl. repeat split.
  - apply sendMessage_not_open.
  - intros Hopen. split.
    + now destruct (sendMessage_open chatId text clk s Hopen) as [Hm _].
    + now apply sendMessage_open_frame.
Qed.

Lemma send_while_streaming_witness :
  isStreaming mid_turn = true
  /\ handleSendMessage clock1 (mkChatPage "again" (Some "c1")) mid_turn
     = (mkChatPage "again" (Some "c1"), mid_turn)
  /\ sendMessage "c1" "again" clock1 (disconnect mid_turn) = disconnect mid_turn
  /\ length (messages (sendMessage "c1" "again" clock1 mid_turn)) = 4.
Proof.
  split; [reflexivity|].
  destruct (send_while_streaming clock1 (mkChatPage "again" (Some "c1"))
              "c1" "again" mid_turn eq_refl) as ((Hpage & _) & _ & Hopen).
  destruct (send_while_streaming clock1 (mkChatPage "again" (Some "c1"))
              "c1" "again" (disconnect mid_turn) eq_refl) as (_ & Hclosed & _).
  split; [exact Hpage|]. split; [exact (Hclosed eq_refl)|].
  destruct (Hopen eq_refl) as [Hm _]. rewrite Hm. reflexivity.
Defined.

(** ** [connect] and [disconnect] *)

(** C5, as stated, fails: [connect] has no guard on the existing session.
    Called in the state [connected], whose only session is open, it
    changes the state, constructs a second socket and leaves the first one
    open. *)
Lemma connect_while_open :
  session_open connected = true
  /\ sessions connected = [OPEN]
  /\ connect (Some "tok") connected <> connected
  /\ sessions (connect (Some "tok") connected) = [OPEN; CONNECTING]
  /\ wsRef (connect (Some "tok") connected) = Some 1.
Proof. vm_compute. repeat split. discriminate. Qed.

(** C5 (amended): [connect] is a no-op only when there is no credential.
    With a credential it constructs a new connecting session in every
    state, also while a session is connecting or open, and makes it the
    current one; the sessions that existed before are left exactly as they
    were (none of them is closed), and the store, the flags, the snapshot
    and the buffer are unchanged. *)
Theorem connect_always_new_session s :
  connect None s = s
  /\ connect (Some "") s = s
  /\ forall c tok,
       let s' := connect (Some (String c tok)) s in
       sockets s' = sockets s ++ [WebSocket.new (WS_BASE +:+ "/ws/chat?token=" +:+ String c tok)]
       /\ take (length (sockets s)) (sockets s') = sockets s
       /\ sessions s' = sessions s ++ [CONNECTING]
       /\ wsRef s' = Some (length (sockets s))
       /\ WebSocket.readyState <$> current_socket s' = Some CONNECTING
       /\ messages s' = messages s
       /\ isStreaming s' = isStreaming s
       /\ isConnected s' = isConnected s
       /\ rateLimits s' = rateLimits s
       /\ currentMessageRef s' = currentMessageRef s.
Proof.
  split; [reflexivity|]. split; [reflexivity|].
  intros c tok s'. subst s'. unfold connect, current_socket, sessions. simpl.
  repeat split.
  - now rewrite take_app_length.
  - now rewrite fmap_app.
  - rewrite lookup_app_r by lia. now rewrite Nat.sub_diag.
Qed.

(** C8: [disconnect] closes the current socket and clears [wsRef], and
    nothing else: in every state the message store, the streaming flag and
    the rate-limit snapshot (and also [isConnected] and the buffer) are
    unchanged.  In particular the streaming flag stays true when the
    client disconnects in the middle of a turn, as in [mid_turn]. *)
Theorem disconnect_frame s :
  messages (disconnect s) = messages s
  /\ isStreaming (disconnect s) = isStreaming s
  /\ rateLimits (disconnect s) = rateLimits s
  /\ isConnected (disconnect s) = isConnected s
  /\ currentMessageRef (disconnect s) = currentMessageRef s
  /\ wsRef (disconnect s) = None
  /\ (isStreaming mid_turn = true /\ isStreaming (disconnect mid_turn) = true
      /\ sessions mid_turn = [OPEN] /\ sessions (disconnect mid_turn) = [CLOSING]).
Proof.
  unfold disconnect. destruct (wsRef s) eqn:E; simpl; repeat split; assumption.
Qed.

(** ** Decoding *)

Section Decode.

Variable JSON_parse : string -> outcome WebSocketMessage.t.

(** The handler never lets an exception out. *)
Lemma onmessage_returns raw s :
  exists s', onmessage JSON_parse raw s = Returned s'.
Proof.
  unfold onmessage, onmessage_body.
  destruct (JSON_parse raw); simpl; eauto.
Qed.

Lemma onmessage_decoded raw d s :
  JSON_parse raw = Returned d ->
  onmessage JSON_parse raw s = Returned (dispatch d s).
Proof. intros H. unfold onmessage, onmessage_body. now rewrite H. Qed.

(** C7: when the payload of a raw frame is not JSON, so that
    [JSON.parse] throws, the handler returns normally (the exception
    does not pass the [catch]) and the state it leaves is the state it
    started from: the message store, the streaming flag and the
    rate-limit snapshot are unchanged.  The same holds for the delivery
    of the frame to any socket. *)
Theorem malformed_frame_ignored raw e s :
  JSON_parse raw = Thrown e ->
  onmessage JSON_parse raw s = Returned s
  /\ (forall i, frame_received JSON_parse i raw s = s)
  /\ (forall i, messages (frame_received JSON_parse i raw s) = messages s
                /\ isStreaming (frame_received JSON_parse i raw s) = isStreaming s
                /\ rateLimits (frame_received JSON_parse i raw s) = rateLimits s).
Proof.
  intros H.
  assert (Hm : onmessage JSON_parse raw s = Returned s).
  { unfold onmessage, onmessage_body. now rewrite H. }
  assert (Hf : forall i, frame_received JSON_parse i raw s = s).
  { intros i. unfold frame_received. rewrite Hm.
    destruct (sockets s !! i) as [ws|]; [|reflexivity].
    now destruct (ReadyState_eqb _ _). }
  split; [exact Hm|]. split; [exact Hf|].
  intros i. now rewrite Hf.
Qed.

End Decode.

Lemma malformed_frame_ignored_witness :
  sample_parse "not json" = Thrown "SyntaxError"
  /\ onmessage sample_parse "not json" mid_turn = Returned mid_turn.
Proof.
  split; [reflexivity|].
  apply (malformed_frame_ignored sample_parse "not json" "SyntaxError" mid_turn).
  reflexivity.
Defined.

(** ** The rate-limit monitor *)

(** C9: a [rate_limit_info] frame in which [current_usage] or [limits] is
    absent leaves the snapshot, and the whole state, unchanged. *)
Theorem rate_limit_info_partial_ignored d s :
  WebSocketMessage.type d = "rate_limit_info" ->
  WebSocketMessage.current_usage d = None \/ WebSocketMessage.limits d = None ->
  dispatch d s = s /\ rateLimits (dispatch d s) = rateLimits s.
Proof.
  intros Hty Habs. rewrite (dispatch_rate_limit_info d s Hty).
  destruct Habs as [-> | ->].
  - now split.
  - destruct (WebSocketMessage.current_usage d); now split.
Qed.

Lemma rate_limit_info_partial_ignored_witness :
  let s := dispatch (rate_limit_info (Some usage1) (Some limits1)) connected in
  rateLimits (dispatch (rate_limit_info (Some usage2) None) s)
  = Some (RateLimits.mk usage1 limits1).
Proof.
  intros s.
  destruct (rate_limit_info_partial_ignored
              (rate_limit_info (Some usage2) None) s
              eq_refl (or_intror eq_refl)) as [_ H].
  rewrite H. reflexivity.
Defined.

(** C4, as stated, fails for a second frame without [limits] (the frame of
    the specification's example): the monitor keeps the first snapshot in
    full, and nothing of the second frame is stored. *)
Lemma rate_limit_info_second_without_limits :
  let first := rate_limit_info (Some usage1) (Some limits1) in
  let second := rate_limit_info (Some usage2) None in
  let s := dispatch second (dispatch first initial) in
  rateLimits s = Some (RateLimits.mk usage1 limits1)
  /\ RateLimits.current <$> rateLimits s <> WebSocketMessage.current_usage second.
Proof. vm_compute. split; [reflexivity | discriminate]. Qed.

(** C4 (amended): a [rate_limit_info] frame that carries both
    [current_usage] and [limits] replaces the snapshot wholesale: after a
    first [rate_limit_info] frame (complete or not) and then such a second
    one, the monitor holds exactly the second frame's two fields, and
    nothing of the first frame or of the earlier snapshot. *)
Theorem rate_limit_info_replaces first second cu li s :
  WebSocketMessage.type first = "rate_limit_info" ->
  WebSocketMessage.type second = "rate_limit_info" ->
  WebSocketMessage.current_usage second = Some cu ->
  WebSocketMessage.limits second = Some li ->
  rateLimits (dispatch second (dispatch first s)) = Some (RateLimits.mk cu li).
Proof.
  intros _ H2 Hcu Hli.
  rewrite (dispatch_rate_limit_info second _ H2), Hcu, Hli.
  reflexivity.
Qed.

Lemma rate_limit_info_replaces_witness :
  rateLimits (dispatch (rate_limit_info (Some usage2) (Some limits2))
                (dispatch (rate_limit_info (Some usage1) (Some limits1)) initial))
  = Some (RateLimits.mk usage2 limits2).
Proof.
  apply (rate_limit_info_replaces
           (rate_limit_info (Some usage1) (Some limits1))
           (rate_limit_info (Some usage2) (Some limits2))
           usage2 limits2 initial); reflexivity.
Defined.

(** ** The streaming accumulator *)

Lemma with_content_same m : ChatMessage.with_content (ChatMessage.content m) m = m.
Proof. now destruct m. Qed.

Lemma chunk_updater_open buffer front m :
  is_open_placeholder (Some m) = true ->
  chunk_updater buffer (front ++ [m]) = front ++ [ChatMessage.with_content buffer m].
Proof.
  intros H. unfold chunk_updater.
  now rewrite last_snoc, H, removelast_last.
Qed.

Lemma chunk_updater_ignored buffer prev :
  is_open_placeholder (last prev) = false -> chunk_updater buffer prev = prev.
Proof.
  unfold chunk_updater. destruct (last prev) as [m|]; [|reflexivity].
  now intros ->.
Qed.

Lemma complete_updater_assistant front m :
  ChatMessage.role m = assistant ->
  complete_updater (front ++ [m]) = front ++ [ChatMessage.with_isStreaming false m].
Proof.
  intros H. unfold complete_updater, is_assistant.
  now rewrite last_snoc, H, removelast_last.
Qed.

(** The chunks of a turn, delivered in order to a state whose last message
    is the open placeholder holding the buffer: the placeholder holds the
    buffer followed by the deltas, and nothing else changes. *)
Lemma deliver_chunks fs ds :
  Forall2 carries fs ds ->
  forall s front m,
    messages s = front ++ [m] ->
    is_open_placeholder (Some m) = true ->
    ChatMessage.content m = currentMessageRef s ->
    let buffer := currentMessageRef s +:+ concat_deltas ds in
    deliver s fs =
      set_currentMessageRef buffer
        (setMessages (fun _ => front ++ [ChatMessage.with_content buffer m]) s).
Proof.
  induction 1 as [|f d fs ds [Hty Hc] _ IH]; intros s front m Hm Hopen Hbuf buffer.
  - subst buffer. simpl. rewrite append_empty_r.
    destruct s; simpl in *. subst. now rewrite with_content_same.
  - subst buffer. simpl.
    rewrite (dispatch_text_chunk f s Hty), Hc. simpl.
    rewrite (IH _ front (ChatMessage.with_content (currentMessageRef s +:+ d) m)).
    + simpl. now rewrite append_assoc.
    + simpl. rewrite Hm. now apply chunk_updater_open.
    + exact Hopen.
    + reflexivity.
Qed.

(** C3: a turn started by an accepted [sendMessage], the [text_chunk]
    frames carrying d1..dn delivered in order, then [message_complete]:
    the store is the old store followed by the user message and by the
    assistant message, sealed, whose content is d1 + ... + dn.  The
    content depends on the deltas only through their concatenation, hence
    not on where the text was cut into chunks. *)
Theorem chunks_concatenate s chatId text clk fs ds done :
  session_open s = true ->
  Forall2 carries fs ds ->
  WebSocketMessage.type done = "message_complete" ->
  let s' := dispatch done (deliver (sendMessage chatId text clk s) fs) in
  messages s' =
    messages s ++
      [ userMessage text clk;
        ChatMessage.mk (pretty (assistant_id_now clk + 1)%Z) assistant
          (concat_deltas ds) (Some false) (assistant_date clk) ]
  /\ isStreaming s' = false
  /\ currentMessageRef s' = "".
Proof.
  intros Hopen Hfs Hdone s'. subst s'.
  destruct (sendMessage_open chatId text clk s Hopen) as (Hm & _ & Hb & _).
  rewrite (deliver_chunks fs ds Hfs _ (messages s ++ [userMessage text clk])
             (assistantMessage clk)).
  - rewrite (dispatch_message_complete done _ Hdone). simpl.
    rewrite Hb. rewrite complete_updater_assistant by reflexivity.
    rewrite <- app_assoc. repeat split.
  - rewrite Hm. now rewrite <- app_assoc.
  - reflexivity.
  - now rewrite Hb.
Qed.

Lemma chunks_concatenate_witness :
  let s' := dispatch message_complete
              (deliver (sendMessage "c1" "Hi" clock0 connected)
                       [text_chunk "Hel"; text_chunk "lo "; text_chunk "world"]) in
  ChatMessage.content <$> last (messages s') = Some "Hello world"
  /\ isStreaming s' = false.
Proof.
  intros s'.
  destruct (chunks_concatenate connected "c1" "Hi" clock0
              [text_chunk "Hel"; text_chunk "lo "; text_chunk "world"]
              ["Hel"; "lo "; "world"] message_complete) as (Hm & Hs & _).
  - reflexivity.
  - repeat constructor.
  - reflexivity.
  - subst s'. split; [|exact Hs]. rewrite Hm. reflexivity.
Defined.

(** C6 fails on the code.  In [mid_turn] the placeholder is open with the
    content received so far.  An [error] or [rate_limit_exceeded] frame
    lowers the streaming flag and leaves the store as it is, so the
    placeholder is still marked as streaming, where [message_complete]
    seals it. *)
Theorem terminal_error_leaves_placeholder_open :
  is_open_placeholder (last (messages mid_turn)) = true
  /\ isStreaming (dispatch error mid_turn) = false
  /\ isStreaming (dispatch rate_limit_exceeded mid_turn) = false
  /\ messages (dispatch error mid_turn) = messages mid_turn
  /\ messages (dispatch rate_limit_exceeded mid_turn) = messages mid_turn
  /\ ChatMessage.isStreaming <$> last (messages (dispatch error mid_turn))
     = Some (Some true)
  /\ ChatMessage.isStreaming <$> last (messages (dispatch rate_limit_exceeded mid_turn))
     = Some (Some true)
  /\ ChatMessage.isStreaming <$> last (messages (dispatch message_complete mid_turn))
     = Some (Some false)
  /\ ChatMessage.content <$> last (messages (dispatch error mid_turn)) = Some "Hel".
Proof. vm_compute. repeat split. Qed.

(** In every state the two frames leave the store untouched. *)
Lemma terminal_error_store d s :
  terminal_error d = true ->
  messages (dispatch d s) = messages s /\ isStreaming (dispatch d s) = false.
Proof. intros H. rewrite (dispatch_terminal_error d s H). now split. Qed.

(** C10: a [text_chunk] appends its delta to the buffer also when the last
    entry of the store is not an open placeholder, the store being left
    unchanged; and a [text_chunk] that arrives while a placeholder is open
    sets its content to the whole buffer, so that in a state [s'] whose
    buffer still is the one left by the ignored chunk, the content
    includes the ignored delta. *)
Theorem text_chunk_buffer s s' f1 f2 d1 d2 m :
  carries f1 d1 ->
  carries f2 d2 ->
  is_open_placeholder (last (messages s)) = false ->
  let s1 := dispatch f1 s in
  messages s1 = messages s
  /\ currentMessageRef s1 = currentMessageRef s +:+ d1
  /\ (currentMessageRef s' = currentMessageRef s1 ->
      last (messages s') = Some m ->
      is_open_placeholder (Some m) = true ->
      messages (dispatch f2 s')
        = removelast (messages s')
            ++ [ChatMessage.with_content (currentMessageRef s +:+ d1 +:+ d2) m]
      /\ currentMessageRef (dispatch f2 s') = currentMessageRef s +:+ d1 +:+ d2).
Proof.
  intros [Hty1 Hc1] [Hty2 Hc2] Hclosed s1. subst s1.
  rewrite (dispatch_text_chunk f1 s Hty1), Hc1. simpl.
  split; [now apply chunk_updater_ignored|]. split; [reflexivity|].
  intros Hbuf Hlast Hopen.
  rewrite (dispatch_text_chunk f2 s' Hty2), Hc2. simpl.
  rewrite Hbuf, append_assoc. split; [|reflexivity].
  rewrite (last_removelast _ _ Hlast) at 1.
  now apply chunk_updater_open.
Qed.

Lemma text_chunk_buffer_witness :
  let s := connected in
  let s' := setMessages (fun _ => [userMessage "Hi" clock0; assistantMessage clock0])
              (dispatch (text_chunk "x") s) in
  currentMessageRef s' = "x"
  /\ ChatMessage.content <$> last (messages s') = Some ""
  /\ ChatMessage.content <$> last (messages (dispatch (text_chunk "y") s')) = Some "xy".
Proof.
  intros s s'.
  destruct (text_chunk_buffer s s' (text_chunk "x") (text_chunk "y") "x" "y"
              (assistantMessage clock0)) as (_ & _ & H).
  - split; reflexivity.
  - split; reflexivity.
  - reflexivity.
  - destruct H as [H _]; [reflexivity | reflexivity | reflexivity |].
    split; [reflexivity|]. split; [reflexivity|].
    rewrite H. reflexivity.
Defined.

(** ** The at-most-one-streaming invariant *)

Lemma all_sealed_count l : all_sealed l -> streaming_count l = 0.
Proof.
  unfold all_sealed, streaming_count. induction 1 as [|m l Hm _ IH]; [reflexivity|].
  rewrite filter_cons_False; [exact IH | congruence].
Qed.

Lemma streaming_count_snoc front m :
  all_sealed front ->
  streaming_count (front ++ [m]) = if streaming m then 1 else 0.
Proof.
  intros H. unfold streaming_count.
  rewrite filter_app, length_app. fold (streaming_count front).
  rewrite (all_sealed_count front H). simpl.
  destruct (streaming m) eqn:E.
  - rewrite filter_cons_True by assumption. reflexivity.
  - rewrite filter_cons_False by congruence. reflexivity.
Qed.

(** Only the last message can be streaming: this is the invariant of the
    specification. *)
Lemma sealed_front_at_most_one l :
  all_sealed (removelast l) -> at_most_one_streaming_last l.
Proof.
  intros H. destruct (last l) as [m|] eqn:E.
  - apply last_Some in E as [front ->]. rewrite removelast_last in H.
    unfold at_most_one_streaming_last.
    rewrite (streaming_count_snoc front m H), last_snoc. simpl.
    destruct (streaming m); split; auto; discriminate.
  - apply last_None in E. subst l. split; [cbv; lia | cbv; discriminate].
Qed.

Lemma all_sealed_snoc front m :
  all_sealed front -> streaming m = false -> all_sealed (front ++ [m]).
Proof. intros Hf Hm. apply Forall_app. split; [exact Hf | now constructor]. Qed.

Lemma turn_inv_initial : turn_inv initial.
Proof. split; simpl; intros; constructor. Qed.

(** A handler that touches neither the store nor the flag. *)
Lemma turn_inv_same s s' :
  messages s' = messages s -> isStreaming s' = isStreaming s ->
  turn_inv s -> turn_inv s'.
Proof. intros Hm Hf [H1 H2 H3]. split; rewrite ?Hm, ?Hf; assumption. Qed.

Lemma turn_inv_sendMessage chatId text clk s :
  isStreaming s = false -> turn_inv s -> turn_inv (sendMessage chatId text clk s).
Proof.
  intros Hflag Hinv.
  destruct (sendMessage_cases chatId text clk s) as [-> | [Hm Hs]]; [exact Hinv|].
  pose proof (inv_flag s Hinv Hflag) as Hsealed.
  split; rewrite ?Hm, ?Hs.
  - change [userMessage text clk; assistantMessage clk]
      with ([userMessage text clk] ++ [assistantMessage clk]).
    rewrite app_assoc, removelast_last.
    now apply all_sealed_snoc.
  - apply Forall_app. split; [exact (inv_role s Hinv)|].
    repeat constructor; simpl; discriminate.
  - discriminate.
Qed.

Lemma turn_inv_handleSendMessage clk p s :
  turn_inv s -> turn_inv (snd (handleSendMessage clk p s)).
Proof.
  intros Hinv. unfold handleSendMessage.
  destruct (isStreaming s) eqn:E.
  - now rewrite !orb_true_r.
  - destruct (_ || _ || false); simpl; [exact Hinv|].
    now apply turn_inv_sendMessage.
Qed.

Lemma turn_inv_text_chunk d s :
  WebSocketMessage.type d = "text_chunk" -> turn_inv s -> turn_inv (dispatch d s).
Proof.
  intros Hty Hinv. rewrite (dispatch_text_chunk d s Hty). simpl.
  set (buffer := currentMessageRef s +:+ _).
  destruct (is_open_placeholder (last (messages s))) eqn:E.
  - destruct (last (messages s)) as [m|] eqn:El; [|discriminate].
    pose proof (last_removelast _ _ El) as Hl.
    destruct Hinv as [H1 H2 H3].
    assert (Hstr : streaming m = true).
    { unfold is_open_placeholder in E. apply andb_true_iff in E as [_ E]. exact E. }
    split; simpl; rewrite Hl, (chunk_updater_open buffer _ m E).
    + now rewrite removelast_last.
    + rewrite Hl in H2. apply Forall_app in H2 as [H2 H2'].
      apply Forall_app. split; [exact H2|].
      constructor; [|constructor]. simpl. intros _.
      apply Forall_inv in H2'. now apply H2'.
    + intros Hflag. specialize (H3 Hflag). rewrite Hl in H3.
      apply Forall_app in H3 as [_ H3]. apply Forall_inv in H3. congruence.
  - apply (turn_inv_same s); simpl; [now apply chunk_updater_ignored | reflexivity | exact Hinv].
Qed.

Lemma turn_inv_message_complete d s :
  WebSocketMessage.type d = "message_complete" -> turn_inv s -> turn_inv (dispatch d s).
Proof.
  intros Hty [H1 H2 H3]. rewrite (dispatch_message_complete d s Hty).
  assert (Hsealed : all_sealed (complete_updater (messages s))
                    /\ Forall (fun m => streaming m = true -> ChatMessage.role m = assistant)
                              (complete_updater (messages s))).
  { destruct (last (messages s)) as [m|] eqn:El.
    - pose proof (last_removelast _ _ El) as Hl.
      destruct (ChatMessage.role m) eqn:Er.
      + assert (Hm : streaming m = false).
        { rewrite Hl in H2. apply Forall_app in H2 as [_ H2]. apply Forall_inv in H2.
          destruct (streaming m); [|reflexivity]. specialize (H2 eq_refl). congruence. }
        assert (Hu : complete_updater (messages s) = messages s).
        { unfold complete_updater, is_assistant. now rewrite El, Er. }
        rewrite Hu. split; [|exact H2].
        rewrite Hl. now apply all_sealed_snoc.
      + rewrite Hl, (complete_updater_assistant _ m Er). split.
        * now apply all_sealed_snoc.
        * rewrite Hl in H2. apply Forall_app in H2 as [H2 _].
          apply Forall_app. split; [exact H2|]. repeat constructor. discriminate.
    - apply last_None in El. rewrite El. split; constructor. }
  destruct Hsealed as [Hs Hr].
  split; simpl.
  - destruct (last (complete_updater (messages s))) as [m|] eqn:El.
    + rewrite (last_removelast _ _ El) in Hs. now apply Forall_app in Hs as [Hs _].
    + apply last_None in El. rewrite El. constructor.
  - exact Hr.
  - intros _. exact Hs.
Qed.

Lemma turn_inv_dispatch d s :
  terminal_error d = false -> turn_inv s -> turn_inv (dispatch d s).
Proof.
  intros He Hinv.
  destruct (String.eqb (WebSocketMessage.type d) "text_chunk") eqn:Ec.
  { apply String.eqb_eq in Ec. now apply turn_inv_text_chunk. }
  destruct (String.eqb (WebSocketMessage.type d) "message_complete") eqn:Em.
  { apply String.eqb_eq in Em. now apply turn_inv_message_complete. }
  apply String.eqb_neq in Ec, Em.
  destruct (dispatch_other d s Ec Em He) as (Hm & Hf & _).
  now apply (turn_inv_same s).
Qed.

Section Invariant.

Variable JSON_parse : string -> outcome WebSocketMessage.t.

Lemma turn_inv_frame_received i raw s :
  page_driven JSON_parse (FrameReceived i raw) = true ->
  turn_inv s -> turn_inv (frame_received JSON_parse i raw s).
Proof.
  simpl. intros Hg Hinv. unfold frame_received.
  destruct (sockets s !! i) as [ws|]; [|exact Hinv].
  destruct (ReadyState_eqb _ _); [|exact Hinv].
  unfold onmessage, onmessage_body.
  destruct (JSON_parse raw) as [d|e]; simpl; [|exact Hinv].
  apply turn_inv_dispatch; [|exact Hinv].
  now apply negb_true_iff.
Qed.

Lemma turn_inv_step e s :
  page_driven JSON_parse e = true ->
  turn_inv s -> turn_inv (step JSON_parse s e).
Proof.
  intros Hg Hinv. destruct e as [tok| | | clk p | i | i | i raw | ]; simpl.
  - apply (turn_inv_same s); [| |exact Hinv]; now destruct tok as [[|c tok]|].
  - apply (turn_inv_same s); [| |exact Hinv];
      unfold disconnect; now destruct (wsRef s).
  - discriminate.
  - now apply turn_inv_handleSendMessage.
  - apply (turn_inv_same s); [| |exact Hinv]; unfold transport_opened;
      destruct (sockets s !! i); try reflexivity;
      now destruct (ReadyState_eqb _ _).
  - apply (turn_inv_same s); [| |exact Hinv]; unfold transport_closed;
      destruct (sockets s !! i); try reflexivity;
      now destruct (ReadyState_eqb _ _).
  - now apply turn_inv_frame_received.
  - apply (turn_inv_same s); [| |exact Hinv]; unfold ping;
      destruct (isConnected s); try reflexivity;
      destruct (wsRef s) as [j|]; try reflexivity;
      destruct (sockets s !! j); try reflexivity;
      now destruct (ReadyState_eqb _ _).
Qed.

Lemma turn_inv_run es s :
  forallb (page_driven JSON_parse) es = true ->
  turn_inv s -> turn_inv (run JSON_parse s es).
Proof.
  revert s. induction es as [|e es IH]; intros s Hg Hinv; [exact Hinv|].
  simpl in Hg. apply andb_true_iff in Hg as [He Hes].
  apply (IH (step JSON_parse s e) Hes).
  now apply turn_inv_step.
Qed.

(** C2 (amended): after any sequence of [connect], [disconnect], socket
    [open] and [close] events, ping ticks, sends made through the page's
    [handleSendMessage] (which calls [sendMessage] only while the
    streaming flag is down) and inbound frames other than
    [rate_limit_exceeded] and [error], malformed and unknown ones
    included, the store holds at most one message with
    [isStreaming = true], and if there is one it is the last element. *)
Theorem page_driven_at_most_one_streaming es :
  forallb (page_driven JSON_parse) es = true ->
  at_most_one_streaming_last (messages (run JSON_parse initial es)).
Proof.
  intros Hg. apply sealed_front_at_most_one.
  apply (inv_front _ (turn_inv_run es initial Hg turn_inv_initial)).
Qed.

End Invariant.

Lemma page_driven_at_most_one_streaming_witness :
  forallb (page_driven sample_parse) scenario = true
  /\ at_most_one_streaming_last (messages (run sample_parse initial scenario)).
Proof.
  split; [reflexivity|].
  apply (page_driven_at_most_one_streaming sample_parse scenario).
  reflexivity.
Defined.

(** C2, as stated, fails: [sendMessage] called twice on an open session
    leaves two messages with [isStreaming = true] in the store, the first
    of which is not the last element. *)
Lemma two_sends_two_placeholders :
  let s := run sample_parse initial
             [ Connect (Some "tok"); Opened 0;
               SendMessage "c1" "a" clock0; SendMessage "c1" "b" clock1 ] in
  streaming_count (messages s) = 2
  /\ streaming <$> messages s = [false; true; false; true]
  /\ ~ at_most_one_streaming_last (messages s).
Proof.
  intros s. assert (H : streaming_count (messages s) = 2) by reflexivity.
  split; [exact H|]. split; [reflexivity|].
  intros [Hle _]. rewrite H in Hle. lia.
Qed.

(** The same store is reached through the page once a turn has been ended
    by an [error] frame: the flag is down, the old placeholder is still
    open, and the next send is accepted. *)
Lemma error_then_send_two_placeholders :
  let s := run sample_parse initial
             [ Connect (Some "tok"); Opened 0;
               HandleSendMessage clock0 (mkChatPage "a" (Some "c1"));
               FrameReceived 0 (wire error);
               HandleSendMessage clock1 (mkChatPage "b" (Some "c1")) ] in
  streaming <$> messages s = [false; true; false; true]
  /\ isStreaming s = true.
Proof. vm_compute. split; reflexivity. Qed.

(** ** The buffer and the open placeholder *)

Lemma buffer_inv_same s s' :
  messages s' = messages s -> currentMessageRef s' = currentMessageRef s ->
  buffer_inv s -> buffer_inv s'.
Proof. intros Hm Hb H m. rewrite Hm, Hb. apply H. Qed.

Lemma buffer_inv_sendMessage chatId text clk s :
  buffer_inv s -> buffer_inv (sendMessage chatId text clk s).
Proof.
  intros H. destruct (session_open s) eqn:E.
  - destruct (sendMessage_open chatId text clk s E) as (Hm & _ & Hb & _).
    intros m. rewrite Hm, Hb.
    change [userMessage text clk; assistantMessage clk]
      with ([userMessage text clk] ++ [assistantMessage clk]).
    rewrite app_assoc, last_snoc. now intros [= <-] _.
  - now rewrite sendMessage_not_open.
Qed.

Lemma buffer_inv_dispatch d s : buffer_inv s -> buffer_inv (dispatch d s).
Proof.
  intros H.
  destruct (String.eqb (WebSocketMessage.type d) "text_chunk") eqn:Ec.
  { apply String.eqb_eq in Ec. rewrite (dispatch_text_chunk d s Ec).
    intros m. cbn [messages currentMessageRef setMessages set_currentMessageRef].
    destruct (is_open_placeholder (last (messages s))) eqn:E.
    - destruct (last (messages s)) as [m0|] eqn:El; [|discriminate].
      rewrite (last_removelast _ _ El), (chunk_updater_open _ _ m0 E), last_snoc.
      now intros [= <-] _.
    - rewrite (chunk_updater_ignored _ _ E). intros Hl Ho.
      rewrite Hl in E. congruence. }
  destruct (String.eqb (WebSocketMessage.type d) "message_complete") eqn:Em.
  { apply String.eqb_eq in Em. rewrite (dispatch_message_complete d s Em).
    intros m. cbn [messages currentMessageRef setMessages set_currentMessageRef
                   setIsStreaming].
    unfold complete_updater.
    destruct (last (messages s)) as [m0|] eqn:El; [|now rewrite El].
    unfold is_assistant. destruct (Role_eqb (ChatMessage.role m0) assistant) eqn:Er.
    - rewrite last_snoc. intros [= <-]. unfold is_open_placeholder. simpl.
      now rewrite andb_false_r.
    - rewrite El. intros [= <-]. unfold is_open_placeholder. now rewrite Er. }
  apply String.eqb_neq in Ec, Em.
  destruct (terminal_error d) eqn:Et.
  - rewrite (dispatch_terminal_error d s Et). now apply (buffer_inv_same s).
  - destruct (dispatch_other d s Ec Em Et) as (Hm & _ & Hb).
    now apply (buffer_inv_same s).
Qed.

(** In no run from the initial state, whatever the events, does an open
    placeholder coexist with a buffer that differs from its content: the
    only handler that opens a placeholder, [sendMessage], empties the
    buffer. *)
Lemma placeholder_holds_buffer JSON_parse es :
  buffer_inv (run JSON_parse initial es).
Proof.
  assert (G : forall s, buffer_inv s -> buffer_inv (run JSON_parse s es)).
  { induction es as [|e es IH]; intros s H; [exact H|].
    apply IH. destruct e as [tok| |c t clk| clk p | i | i | i raw | ]; simpl.
    - apply (buffer_inv_same s); [| |exact H]; now destruct tok as [[|c tok]|].
    - apply (buffer_inv_same s); [| |exact H]; unfold disconnect; now destruct (wsRef s).
    - now apply buffer_inv_sendMessage.
    - unfold handleSendMessage. destruct (_ || _ || _); simpl; [exact H|].
      now apply buffer_inv_sendMessage.
    - apply (buffer_inv_same s); [| |exact H]; unfold transport_opened;
        destruct (sockets s !! i); try reflexivity;
        now destruct (ReadyState_eqb _ _).
    - apply (buffer_inv_same s); [| |exact H]; unfold transport_closed;
        destruct (sockets s !! i); try reflexivity;
        now destruct (ReadyState_eqb _ _).
    - unfold frame_received.
      destruct (sockets s !! i) as [ws|]; [|exact H].
      destruct (ReadyState_eqb _ _); [|exact H].
      unfold onmessage, onmessage_body.
      destruct (JSON_parse raw) as [d|e]; simpl; [|exact H].
      now apply buffer_inv_dispatch.
    - apply (buffer_inv_same s); [| |exact H]; unfold ping;
        destruct (isConnected s); try reflexivity;
        destruct (wsRef s) as [j|]; try reflexivity;
        destruct (sockets s !! j); try reflexivity;
        now destruct (ReadyState_eqb _ _). }
  apply G. intros m. discriminate.
Qed.

(** * Further properties of the hook *)

(** ** Runs *)

(** A property kept by each handler is kept by every run. *)
Lemma run_invariant (P : Hook -> Prop) JSON_parse :
  (forall tok s, P s -> P (connect tok s)) ->
  (forall s, P s -> P (disconnect s)) ->
  (forall chatId text clk s, P s -> P (sendMessage chatId text clk s)) ->
  (forall i s, P s -> P (transport_opened i s)) ->
  (forall i s, P s -> P (transport_closed i s)) ->
  (forall d s, P s -> P (dispatch d s)) ->
  (forall s, P s -> P (ping s)) ->
  forall es s, P s -> P (run JSON_parse s es).
Proof.
  intros Hc Hd Hs Ho Hcl Hf Hp es.
  induction es as [|e es IH]; intros s H; [exact H|].
  apply IH. destruct e as [tok| |c t clk|clk p|i|i|i raw| ]; simpl; auto.
  - unfold handleSendMessage. destruct (_ || _ || _); simpl; auto.
  - unfold frame_received.
    destruct (sockets s !! i) as [ws|]; [|exact H].
    destruct (ReadyState_eqb _ _); [|exact H].
    unfold onmessage, onmessage_body.
    destruct (JSON_parse raw) as [d|x]; simpl; auto.
Qed.

(** The handlers that leave the store, the flag and the buffer alone. *)
Lemma transport_store s :
  (forall tok, messages (connect tok s) = messages s
               /\ isStreaming (connect tok s) = isStreaming s
               /\ currentMessageRef (connect tok s) = currentMessageRef s
               /\ rateLimits (connect tok s) = rateLimits s)
  /\ (messages (disconnect s) = messages s
      /\ isStreaming (disconnect s) = isStreaming s
      /\ currentMessageRef (disconnect s) = currentMessageRef s
      /\ rateLimits (disconnect s) = rateLimits s)
  /\ (forall i, messages (transport_opened i s) = messages s
                /\ isStreaming (transport_opened i s) = isStreaming s
                /\ currentMessageRef (transport_opened i s) = currentMessageRef s
                /\ rateLimits (transport_opened i s) = rateLimits s)
  /\ (forall i, messages (transport_closed i s) = messages s
                /\ isStreaming (transport_closed i s) = isStreaming s
                /\ currentMessageRef (transport_closed i s) = currentMessageRef s
                /\ rateLimits (transport_closed i s) = rateLimits s)
  /\ (messages (ping s) = messages s
      /\ isStreaming (ping s) = isStreaming s
      /\ currentMessageRef (ping s) = currentMessageRef s
      /\ rateLimits (ping s) = rateLimits s).
Proof.
  split; [|split; [|split; [|split]]].
  - intros [[|c tok]|]; repeat split.
  - unfold disconnect. destruct (wsRef s); repeat split.
  - intros i. unfold transport_opened.
    destruct (sockets s !! i); [destruct (ReadyState_eqb _ _)|]; repeat split.
  - intros i. unfold transport_closed.
    destruct (sockets s !! i); [destruct (ReadyState_eqb _ _)|]; repeat split.
  - unfold ping. destruct (isConnected s); [|repeat split].
    destruct (wsRef s) as [j|]; [|repeat split].
    destruct (sockets s !! j); [destruct (ReadyState_eqb _ _)|]; repeat split.
Qed.

(** A property of the store, the flag, the buffer and the snapshot is
    kept by the handlers of the transport. *)
Lemma run_store_invariant (P : Hook -> Prop) JSON_parse :
  (forall s s', messages s' = messages s -> isStreaming s' = isStreaming s ->
                currentMessageRef s' = currentMessageRef s ->
                rateLimits s' = rateLimits s -> P s -> P s') ->
  (forall chatId text clk s, P s -> P (sendMessage chatId text clk s)) ->
  (forall d s, P s -> P (dispatch d s)) ->
  forall es s, P s -> P (run JSON_parse s es).
Proof.
  intros Hsame Hs Hf. apply run_invariant; auto; intros;
    destruct (transport_store s) as (Hc & Hd & Ho & Hcl & Hp).
  - destruct (Hc tok) as (? & ? & ? & ?). now apply (Hsame s).
  - destruct Hd as (? & ? & ? & ?). now apply (Hsame s).
  - destruct (Ho i) as (? & ? & ? & ?). now apply (Hsame s).
  - destruct (Hcl i) as (? & ? & ? & ?). now apply (Hsame s).
  - destruct Hp as (? & ? & ? & ?). now apply (Hsame s).
Qed.

(** ** [disconnect] *)

(** After [disconnect] nothing goes out until the next [connect]: a second
    [disconnect], [sendMessage] and the ping timer all leave the state as
    it is, whether or not the [close] event has been delivered yet. *)
Theorem disconnect_then_silent s chatId text clk :
  disconnect (disconnect s) = disconnect s
  /\ sendMessage chatId text clk (disconnect s) = disconnect s
  /\ ping (disconnect s) = disconnect s
  /\ session_open (disconnect s) = false.
Proof.
  assert (H : wsRef (disconnect s) = None).
  { unfold disconnect. now destruct (wsRef s) eqn:E. }
  unfold session_open, current_socket, sendMessage, ping.
  unfold disconnect at 1. rewrite !H.
  repeat split. now destruct (isConnected (disconnect s)).
Qed.

(** ** Frames without effect *)

(** A frame whose discriminator is not [rate_limit_info], [text_chunk],
    [message_complete], [rate_limit_exceeded] or [error] (the
    informational ones and every unknown one) leaves the whole state
    unchanged, also when it comes in over a socket. *)
Theorem unknown_frame_ignored JSON_parse raw d i s :
  JSON_parse raw = Returned d ->
  effective (WebSocketMessage.type d) = false ->
  dispatch d s = s /\ frame_received JSON_parse i raw s = s.
Proof.
  intros Hp He. unfold effective in He.
  repeat (apply orb_false_iff in He as [He ?]).
  assert (Hd : dispatch d s = s).
  { unfold dispatch.
    repeat match goal with H : String.eqb _ _ = false |- _ => rewrite H; clear H end.
    repeat match goal with |- context [if ?b then _ else _] => destruct b end;
      reflexivity. }
  split; [exact Hd|]. unfold frame_received.
  rewrite (onmessage_decoded JSON_parse raw d s Hp). simpl. rewrite Hd.
  destruct (sockets s !! i); [|reflexivity]. now destruct (ReadyState_eqb _ _).
Qed.

Lemma unknown_frame_ignored_witness :
  frame_received sample_parse 0 (wire (WebSocketMessage.bare "pong")) mid_turn
  = mid_turn.
Proof.
  apply (unknown_frame_ignored sample_parse
           (wire (WebSocketMessage.bare "pong")) (WebSocketMessage.bare "pong")
           0 mid_turn); reflexivity.
Defined.

(** A [text_chunk] without content, or with an empty one, changes nothing
    in a state reached by a run from the initial state. *)
Theorem empty_chunk_ignored JSON_parse es d :
  WebSocketMessage.type d = "text_chunk" ->
  default "" (WebSocketMessage.content d) = "" ->
  dispatch d (run JSON_parse initial es) = run JSON_parse initial es.
Proof.
  intros Hty Hc. pose proof (placeholder_holds_buffer JSON_parse es) as Hinv.
  set (s := run JSON_parse initial es) in *.
  rewrite (dispatch_text_chunk d s Hty), Hc, append_empty_r. simpl.
  assert (Hu : chunk_updater (currentMessageRef s) (messages s) = messages s).
  { destruct (is_open_placeholder (last (messages s))) eqn:E.
    - destruct (last (messages s)) as [m|] eqn:El; [|discriminate].
      rewrite (last_removelast _ _ El) at 1.
      rewrite (chunk_updater_open _ _ m E), <- (Hinv m El E), with_content_same.
      symmetry. now apply last_removelast.
    - now apply chunk_updater_ignored. }
  unfold setMessages, set_currentMessageRef. simpl. rewrite Hu. now destruct s.
Qed.

Lemma empty_chunk_ignored_witness :
  let s := run sample_parse initial
             [ Connect (Some "tok"); Opened 0;
               HandleSendMessage clock0 (mkChatPage "Hi" (Some "c1"));
               FrameReceived 0 (wire (text_chunk "Hello")) ] in
  dispatch (WebSocketMessage.bare "text_chunk") s = s
  /\ dispatch (text_chunk "") s = s.
Proof.
  intros s. split.
  - apply (empty_chunk_ignored sample_parse _ (WebSocketMessage.bare "text_chunk"));
      reflexivity.
  - apply (empty_chunk_ignored sample_parse _ (text_chunk "")); reflexivity.
Defined.

(** A repeated [message_complete] changes nothing more than the first
    one. *)
Theorem message_complete_idempotent d1 d2 s :
  WebSocketMessage.type d1 = "message_complete" ->
  WebSocketMessage.type d2 = "message_complete" ->
  dispatch d2 (dispatch d1 s) = dispatch d1 s.
Proof.
  intros H1 H2.
  rewrite (dispatch_message_complete d2 _ H2), (dispatch_message_complete d1 _ H1).
  unfold set_currentMessageRef, setMessages, setIsStreaming. simpl. f_equal.
  unfold complete_updater at 1.
  destruct (last (complete_updater (messages s))) as [m|] eqn:El; [|reflexivity].
  destruct (is_assistant (Some m)) eqn:Ea; [|reflexivity].
  assert (Hs : ChatMessage.isStreaming m = Some false).
  { unfold complete_updater in El.
    destruct (last (messages s)) as [m0|] eqn:E0; [|congruence].
    destruct (is_assistant (Some m0)) eqn:Ea0.
    - rewrite last_snoc in El. now injection El as <-.
    - congruence. }
  rewrite (last_removelast _ _ El) at 2. f_equal. f_equal.
  destruct m. simpl in Hs. now subst.
Qed.

Lemma message_complete_idempotent_witness :
  dispatch message_complete (dispatch message_complete mid_turn)
  = dispatch message_complete mid_turn.
Proof.
  apply (message_complete_idempotent message_complete message_complete mid_turn);
    reflexivity.
Defined.

(** ** The streaming flag and the placeholder *)

Lemma flag_inv_dispatch d s :
  (isStreaming s = true -> is_open_placeholder (last (messages s)) = true) ->
  isStreaming (dispatch d s) = true ->
  is_open_placeholder (last (messages (dispatch d s))) = true.
Proof.
  intros H.
  destruct (String.eqb (WebSocketMessage.type d) "text_chunk") eqn:Ec.
  { apply String.eqb_eq in Ec. rewrite (dispatch_text_chunk d s Ec).
    cbn [messages isStreaming setMessages set_currentMessageRef].
    intros Hf. specialize (H Hf).
    destruct (last (messages s)) as [m|] eqn:El; [|discriminate].
    rewrite (last_removelast _ _ El), (chunk_updater_open _ _ m H), last_snoc.
    exact H. }
  destruct (String.eqb (WebSocketMessage.type d) "message_complete") eqn:Em.
  { apply String.eqb_eq in Em. rewrite (dispatch_message_complete d s Em).
    discriminate. }
  apply String.eqb_neq in Ec, Em.
  destruct (terminal_error d) eqn:Et.
  - rewrite (dispatch_terminal_error d s Et). discriminate.
  - destruct (dispatch_other d s Ec Em Et) as (-> & -> & _). exact H.
Qed.

(** In every run from the initial state, whatever the events, the last
    message of the store is an open placeholder whenever the streaming
    flag is true: a chunk that arrives while the flag is up is never
    dropped. *)
Theorem streaming_flag_has_placeholder JSON_parse es :
  isStreaming (run JSON_parse initial es) = true ->
  is_open_placeholder (last (messages (run JSON_parse initial es))) = true.
Proof.
  apply (run_store_invariant
           (fun s => isStreaming s = true ->
                     is_open_placeholder (last (messages s)) = true)).
  - intros s s' -> -> _ _ H. exact H.
  - intros c t clk s H.
    destruct (session_open s) eqn:E.
    + destruct (sendMessage_open c t clk s E) as (-> & _). intros _.
      change [userMessage t clk; assistantMessage clk]
        with ([userMessage t clk] ++ [assistantMessage clk]).
      now rewrite app_assoc, last_snoc.
    + now rewrite sendMessage_not_open.
  - apply flag_inv_dispatch.
  - discriminate.
Qed.

Lemma streaming_flag_has_placeholder_witness :
  let es := [ Connect (Some "tok"); Opened 0;
              SendMessage "c1" "a" clock0;
              FrameReceived 0 (wire (text_chunk "Hello")) ] in
  isStreaming (run sample_parse initial es) = true
  /\ is_open_placeholder (last (messages (run sample_parse initial es))) = true.
Proof.
  intros es. split; [reflexivity|].
  apply (streaming_flag_has_placeholder sample_parse es). reflexivity.
Defined.

(** ** Messages are kept *)

Lemma keeps_refl s s' : messages s' = messages s -> keeps s s'.
Proof. intros H i m Hm. exists m. rewrite H. repeat split; auto. Qed.

Lemma keeps_length s s' : keeps s s' -> length (messages s) <= length (messages s').
Proof.
  intros H. destruct (last (messages s)) as [m|] eqn:El.
  - rewrite last_lookup in El. destruct (H _ _ El) as (m' & Hm' & _).
    apply lookup_lt_Some in Hm'. lia.
  - apply last_None in El. rewrite El. simpl. lia.
Qed.

Lemma keeps_trans s1 s2 s3 : keeps s1 s2 -> keeps s2 s3 -> keeps s1 s3.
Proof.
  intros H12 H23 i m Hm.
  destruct (H12 i m Hm) as (m2 & Hm2 & Hid & Hr & Ht & Hsame).
  destruct (H23 i m2 Hm2) as (m3 & Hm3 & Hid3 & Hr3 & Ht3 & Hsame3).
  exists m3. repeat split; try congruence.
  intros Hc. specialize (Hsame Hc). subst m2. apply Hsame3.
  destruct Hc as [Hc|[Hc|Hc]]; auto.
  right. right. pose proof (keeps_length _ _ H12). lia.
Qed.

(** An updater that rewrites the last message only. *)
Lemma keeps_last_only s s' front m m' :
  messages s = front ++ [m] -> messages s' = front ++ [m'] ->
  ChatMessage.id m' = ChatMessage.id m ->
  ChatMessage.role m' = ChatMessage.role m ->
  ChatMessage.timestamp m' = ChatMessage.timestamp m ->
  (ChatMessage.role m = user \/ ChatMessage.isStreaming m = Some false -> m' = m) ->
  keeps s s'.
Proof.
  intros Hs Hs' Hid Hr Ht Hsame i x Hx. rewrite Hs in Hx. rewrite Hs', Hs.
  destruct (decide (i < length front)) as [Hlt|Hge].
  - rewrite lookup_app_l in Hx by exact Hlt. exists x.
    rewrite lookup_app_l by exact Hlt. repeat split; auto.
  - rewrite lookup_app_r in Hx by lia. rewrite lookup_app_r by lia.
    destruct (i - length front) as [|k] eqn:Ek; [|destruct k; discriminate].
    simpl in Hx. injection Hx as <-. exists m'. simpl.
    repeat split; auto. rewrite length_app. simpl.
    intros [Hc|[Hc|Hc]]; [auto | auto | lia].
Qed.

Lemma keeps_dispatch d s : keeps s (dispatch d s).
Proof.
  destruct (String.eqb (WebSocketMessage.type d) "text_chunk") eqn:Ec.
  { apply String.eqb_eq in Ec.
    destruct (is_open_placeholder (last (messages s))) eqn:E.
    - destruct (last (messages s)) as [m|] eqn:El; [|discriminate].
      pose proof (last_removelast _ _ El) as Hl.
      apply (keeps_last_only _ _ (removelast (messages s)) m
               (ChatMessage.with_content
                  (currentMessageRef s +:+ default "" (WebSocketMessage.content d)) m));
        try reflexivity; try exact Hl.
      + rewrite (dispatch_text_chunk d s Ec). simpl.
        rewrite Hl at 1. now apply chunk_updater_open.
      + unfold is_open_placeholder in E. apply andb_true_iff in E as [Er Es].
        intros [Hu|Hf].
        * rewrite Hu in Er. discriminate.
        * rewrite Hf in Es. discriminate.
    - apply keeps_refl. rewrite (dispatch_text_chunk d s Ec). simpl.
      now apply chunk_updater_ignored. }
  destruct (String.eqb (WebSocketMessage.type d) "message_complete") eqn:Em.
  { apply String.eqb_eq in Em. rewrite (dispatch_message_complete d s Em).
    destruct (last (messages s)) as [m|] eqn:El.
    - pose proof (last_removelast _ _ El) as Hl.
      destruct (ChatMessage.role m) eqn:Er.
      + apply keeps_refl. simpl. unfold complete_updater, is_assistant.
        now rewrite El, Er.
      + apply (keeps_last_only _ _ (removelast (messages s)) m
                 (ChatMessage.with_isStreaming false m));
          try reflexivity; try exact Hl.
        * simpl. rewrite Hl at 1. now apply complete_updater_assistant.
        * intros [Hu|Hf]; [congruence|]. destruct m. simpl in Hf. now subst.
    - apply keeps_refl. simpl. unfold complete_updater. now rewrite El. }
  apply String.eqb_neq in Ec, Em. apply keeps_refl.
  destruct (terminal_error d) eqn:Et.
  - now rewrite (dispatch_terminal_error d s Et).
  - now destruct (dispatch_other d s Ec Em Et) as (-> & _).
Qed.

Lemma keeps_run JSON_parse es s : keeps s (run JSON_parse s es).
Proof.
  apply (run_store_invariant (fun s' => keeps s s')).
  - intros s1 s2 Hm _ _ _ H. apply (keeps_trans _ s1); [exact H|].
    now apply keeps_refl.
  - intros c t clk s1 H. apply (keeps_trans _ s1); [exact H|].
    destruct (sendMessage_cases c t clk s1) as [-> | [Hm _]].
    + now apply keeps_refl.
    + intros i m Hi. exists m. rewrite Hm.
      rewrite lookup_app_l by (now apply lookup_lt_Some in Hi).
      repeat split; auto.
  - intros d s1 H. apply (keeps_trans _ s1); [exact H|]. apply keeps_dispatch.
  - now apply keeps_refl.
Qed.

(** No event deletes, moves or re-identifies a message: the ids, roles and
    timestamps of the store before a run are a prefix of those after
    it. *)
Theorem messages_never_deleted JSON_parse es s :
  (fun m => (ChatMessage.id m, ChatMessage.role m, ChatMessage.timestamp m))
    <$> messages s
  `prefix_of`
  (fun m => (ChatMessage.id m, ChatMessage.role m, ChatMessage.timestamp m))
    <$> messages (run JSON_parse s es).
Proof.
  pose proof (keeps_run JSON_parse es s) as H. unfold keeps in H.
  revert H. generalize (messages (run JSON_parse s es)) as l'.
  generalize (messages s) as l. clear.
  induction l as [|m l IH]; intros l' H; [apply prefix_nil|].
  destruct (H 0 m eq_refl) as (m' & Hm' & Hid & Hr & Ht & _).
  destruct l' as [|x l']; [discriminate|]. simpl in Hm'. injection Hm' as ->.
  rewrite !fmap_cons, Hid, Hr, Ht. apply prefix_cons, IH.
  intros i y Hy. destruct (H (S i) y Hy) as (y' & Hy' & ? & ? & ? & Hs).
  exists y'. repeat split; auto. intros Hc. apply Hs. simpl.
  destruct Hc as [?|[?|?]]; auto. right. right. lia.
Qed.

(** A user message, a sealed message and every message that is not the
    last one is never changed by a later event. *)
Theorem settled_message_unchanged JSON_parse es s i m :
  messages s !! i = Some m ->
  ChatMessage.role m = user
  \/ ChatMessage.isStreaming m = Some false
  \/ S i < length (messages s) ->
  messages (run JSON_parse s es) !! i = Some m.
Proof.
  intros Hm Hc.
  destruct (keeps_run JSON_parse es s i m Hm) as (m' & Hm' & _ & _ & _ & Hs).
  now rewrite Hm', (Hs Hc).
Qed.

Lemma settled_message_unchanged_witness :
  let s := dispatch message_complete mid_turn in
  ChatMessage.content <$> messages s !! 1 = Some "Hel"
  /\ ChatMessage.content <$>
       messages (run sample_parse s
                   [ FrameReceived 0 (wire (text_chunk "Hello"));
                     HandleSendMessage clock1 (mkChatPage "more" (Some "c1"));
                     FrameReceived 0 (wire (text_chunk " there")) ]) !! 1
     = Some "Hel".
Proof.
  intros s. split; [reflexivity|].
  rewrite (settled_message_unchanged sample_parse _ s 1
             (ChatMessage.mk "1700000000001" assistant "Hel" (Some false)
                1700000000000)).
  - reflexivity.
  - reflexivity.
  - right. left. reflexivity.
Defined.

(** ** Outbound frames and sessions *)

Lemma dispatch_transport d s :
  sockets (dispatch d s) = sockets s
  /\ wsRef (dispatch d s) = wsRef s
  /\ isConnected (dispatch d s) = isConnected s.
Proof.
  unfold dispatch.
  repeat match goal with
         | |- context [if ?b then _ else _] => destruct b
         | |- context [match ?o with Some _ => _ | None => _ end] => destruct o
         end; repeat split.
Qed.

Lemma sent_alter (f : WebSocket.t -> WebSocket.t) (j : nat)
    (l : list WebSocket.t) (i : nat) ws :
  (forall x, WebSocket.sent (f x) = WebSocket.sent x) ->
  l !! i = Some ws ->
  WebSocket.sent <$> alter f j l !! i = Some (WebSocket.sent ws).
Proof.
  intros Hf Hi. rewrite list_lookup_alter.
  destruct (decide (j = i)) as [->|_]; rewrite Hi; simpl; now rewrite ?Hf.
Qed.

Lemma sendMessage_sent chatId text clk s i ws :
  sockets s !! i = Some ws ->
  wsRef s <> Some i \/ WebSocket.readyState ws <> OPEN ->
  WebSocket.sent <$> sockets (sendMessage chatId text clk s) !! i
  = Some (WebSocket.sent ws).
Proof.
  intros Hi Hc. unfold sendMessage.
  destruct (wsRef s) as [j|] eqn:Ej; [|now rewrite Hi].
  destruct (sockets s !! j) as [wj|] eqn:Ewj; [|now rewrite Hi].
  destruct (ReadyState_eqb (WebSocket.readyState wj) OPEN) eqn:Eo; [|now rewrite Hi].
  simpl. destruct (decide (j = i)) as [->|Hne].
  - exfalso. rewrite Hi in Ewj. injection Ewj as <-.
    destruct Hc as [Hc|Hc]; [congruence|].
    destruct (WebSocket.readyState ws); try discriminate. congruence.
  - now rewrite list_lookup_alter_ne, Hi.
Qed.

(** No event makes the client send on a socket that is not the current
    one, or that is not open: the frames sent on such a socket are the
    same before and after the event, and the socket is still there. *)
Theorem outbound_only_on_open_session JSON_parse e s i ws :
  sockets s !! i = Some ws ->
  wsRef s <> Some i \/ WebSocket.readyState ws <> OPEN ->
  WebSocket.sent <$> sockets (step JSON_parse s e) !! i
  = Some (WebSocket.sent ws).
Proof.
  intros Hi Hc.
  destruct e as [tok| |c t clk|clk p|j|j|j raw| ]; simpl.
  - destruct tok as [[|a tok]|]; simpl; try now rewrite Hi.
    rewrite lookup_app_l by (now apply lookup_lt_Some in Hi). now rewrite Hi.
  - unfold disconnect. destruct (wsRef s) as [j|]; [|now rewrite Hi].
    simpl. apply sent_alter; [|exact Hi].
    intros x. unfold WebSocket.close. now destruct (WebSocket.readyState x).
  - now apply sendMessage_sent.
  - unfold handleSendMessage. destruct (_ || _ || _); simpl; [now rewrite Hi|].
    now apply sendMessage_sent.
  - unfold transport_opened.
    destruct (sockets s !! j); [|now rewrite Hi].
    destruct (ReadyState_eqb _ _); [|now rewrite Hi].
    simpl. now apply sent_alter.
  - unfold transport_closed.
    destruct (sockets s !! j); [|now rewrite Hi].
    destruct (ReadyState_eqb _ _); [now rewrite Hi|].
    simpl. now apply sent_alter.
  - unfold frame_received.
    destruct (sockets s !! j); [|now rewrite Hi].
    destruct (ReadyState_eqb _ _); [|now rewrite Hi].
    unfold onmessage, onmessage_body.
    destruct (JSON_parse raw) as [d|x]; simpl; [|now rewrite Hi].
    destruct (dispatch_transport d s) as (-> & _). now rewrite Hi.
  - unfold ping. destruct (isConnected s); [|now rewrite Hi].
    destruct (wsRef s) as [j|] eqn:Ej; [|now rewrite Hi].
    destruct (sockets s !! j) as [wj|] eqn:Ewj; [|now rewrite Hi].
    destruct (ReadyState_eqb (WebSocket.readyState wj) OPEN) eqn:Eo; [|now rewrite Hi].
    simpl. destruct (decide (j = i)) as [->|Hne].
    + exfalso. rewrite Hi in Ewj. injection Ewj as <-.
      destruct Hc as [Hc|Hc]; [congruence|].
      destruct (WebSocket.readyState ws); try discriminate. congruence.
    + now rewrite list_lookup_alter_ne, Hi.
Qed.

Lemma outbound_only_on_open_session_witness :
  let s := disconnect mid_turn in
  WebSocket.sent <$> sockets (step sample_parse s (SendMessage "c1" "late" clock1)) !! 0
  = Some [MessageFrame "c1" "Hi"].
Proof.
  intros s.
  apply (outbound_only_on_open_session sample_parse
           (SendMessage "c1" "late" clock1) s 0
           (WebSocket.mk "ws://localhost:8000/ws/chat?token=tok" CLOSING
              [MessageFrame "c1" "Hi"])).
  - reflexivity.
  - left. discriminate.
Defined.

(** ** The rate-limit snapshot *)

(** Once a snapshot has been received it is never cleared: not by a
    frame, a send, a disconnect or a new connection. *)
Theorem rate_limits_never_cleared JSON_parse es s :
  is_Some (rateLimits s) -> is_Some (rateLimits (run JSON_parse s es)).
Proof.
  apply (run_store_invariant (fun s => is_Some (rateLimits s))).
  - intros s1 s2 _ _ _ -> H. exact H.
  - intros c t clk s1 H. destruct (session_open s1) eqn:E.
    + now destruct (sendMessage_open c t clk s1 E) as (_ & _ & _ & ->).
    + now rewrite sendMessage_not_open.
  - intros d s1 H. unfold dispatch.
    repeat match goal with
           | |- context [if ?b then _ else _] => destruct b
           | |- context [match ?o with Some _ => _ | None => _ end] => destruct o
           end; simpl; eauto.
Qed.

Lemma rate_limits_never_cleared_witness :
  let s := dispatch (rate_limit_info (Some usage1) (Some limits1)) mid_turn in
  is_Some (rateLimits (run sample_parse s
                         [ Disconnect; Closed 0; Connect (Some "tok2"); Opened 1;
                           FrameReceived 1 (wire message_complete) ])).
Proof.
  intros s. apply (rate_limits_never_cleared sample_parse _ s). eexists. reflexivity.
Defined.

(** ** One live session under the page's effect *)

(** [sendMessage] and the ping timer change at most the frames sent on
    one socket. *)
Lemma sendMessage_transport chatId text clk s :
  wsRef (sendMessage chatId text clk s) = wsRef s
  /\ (sockets (sendMessage chatId text clk s) = sockets s
      \/ exists j, sockets (sendMessage chatId text clk s)
                   = alter (WebSocket.send (MessageFrame chatId text)) j (sockets s)).
Proof.
  unfold sendMessage. destruct (wsRef s) as [j|] eqn:Ej; [|auto].
  destruct (sockets s !! j); [|auto].
  destruct (ReadyState_eqb _ _); [|auto].
  simpl. split; [now rewrite Ej | eauto].
Qed.

Lemma ping_transport s :
  wsRef (ping s) = wsRef s
  /\ (sockets (ping s) = sockets s
      \/ exists j, sockets (ping s) = alter (WebSocket.send PingFrame) j (sockets s)).
Proof.
  unfold ping. destruct (isConnected s); [|auto].
  destruct (wsRef s) as [j|] eqn:Ej; [|auto].
  destruct (sockets s !! j); [|auto].
  destruct (ReadyState_eqb _ _); [|auto].
  simpl. split; [now rewrite Ej | eauto].
Qed.

Lemma live_inv_step JSON_parse e s :
  (forall tok, e <> Connect tok) ->
  (forall i ws, sockets s !! i = Some ws -> live ws = true -> wsRef s = Some i) ->
  forall i ws, sockets (step JSON_parse s e) !! i = Some ws -> live ws = true ->
               wsRef (step JSON_parse s e) = Some i.
Proof.
  intros Hne H.
  assert (Hsend : forall f s', wsRef s' = wsRef s ->
            (forall x, WebSocket.readyState (f x) = WebSocket.readyState x) ->
            (sockets s' = sockets s \/ exists j, sockets s' = alter f j (sockets s)) ->
            forall i ws, sockets s' !! i = Some ws -> live ws = true ->
                         wsRef s' = Some i).
  { intros f s' -> Hf [-> | [j ->]] i ws Hi Hl; [now apply (H i ws)|].
    rewrite list_lookup_alter in Hi.
    destruct (decide (j = i)) as [->|_].
    - destruct (sockets s !! i) as [w|] eqn:Ew; [|discriminate].
      simpl in Hi. injection Hi as <-. apply (H i w Ew).
      unfold live in *. now rewrite Hf in Hl.
    - now apply (H i ws). }
  destruct e as [tok| |c t clk|clk p|j|j|j raw| ]; simpl.
  - now destruct (Hne tok).
  - unfold disconnect. destruct (wsRef s) as [j|] eqn:Ej;
      [|intros i ws Hi Hl; now specialize (H i ws Hi Hl)].
    simpl. intros i ws Hi Hl. exfalso. rewrite list_lookup_alter in Hi.
    destruct (decide (j = i)) as [->|Hji].
    + destruct (sockets s !! i) as [w|]; [|discriminate].
      simpl in Hi. injection Hi as <-. unfold live, WebSocket.close in Hl.
      destruct (WebSocket.readyState w) eqn:Er; simpl in Hl; try discriminate;
        rewrite Er in Hl; discriminate.
    + specialize (H i ws Hi Hl). congruence.
  - destruct (sendMessage_transport c t clk s) as [Hw Hs].
    now apply (Hsend (WebSocket.send (MessageFrame c t))).
  - unfold handleSendMessage. destruct (_ || _ || _); simpl; [exact H|].
    destruct (sendMessage_transport (default "" (selectedChat p))
                (trim (inputValue p)) clk s) as [Hw Hs].
    now apply (Hsend (WebSocket.send (MessageFrame (default "" (selectedChat p))
                                        (trim (inputValue p))))).
  - unfold transport_opened.
    destruct (sockets s !! j) as [wj|] eqn:Ewj; [|exact H].
    destruct (ReadyState_eqb (WebSocket.readyState wj) CONNECTING) eqn:Ec; [|exact H].
    simpl. intros i ws Hi Hl. rewrite list_lookup_alter in Hi.
    destruct (decide (j = i)) as [->|_].
    + apply (H i wj Ewj). unfold live.
      now destruct (WebSocket.readyState wj).
    + now apply (H i ws).
  - unfold transport_closed.
    destruct (sockets s !! j) as [wj|] eqn:Ewj; [|exact H].
    destruct (ReadyState_eqb (WebSocket.readyState wj) CLOSED) eqn:Ec; [exact H|].
    simpl. intros i ws Hi Hl. rewrite list_lookup_alter in Hi.
    destruct (decide (j = i)) as [->|_].
    + rewrite Ewj in Hi. simpl in Hi. injection Hi as <-. discriminate.
    + now apply (H i ws).
  - unfold frame_received.
    destruct (sockets s !! j); [|exact H].
    destruct (ReadyState_eqb _ _); [|exact H].
    unfold onmessage, onmessage_body.
    destruct (JSON_parse raw) as [d|x]; simpl; [|exact H].
    destruct (dispatch_transport d s) as (Hs & Hw & _).
    apply (Hsend (fun x => x)); auto.
  - destruct (ping_transport s) as [Hw Hs].
    now apply (Hsend (WebSocket.send PingFrame)).
Qed.

Lemma disconnect_no_live s :
  (forall i ws, sockets s !! i = Some ws -> live ws = true -> wsRef s = Some i) ->
  wsRef (disconnect s) = None
  /\ forall i ws, sockets (disconnect s) !! i = Some ws -> live ws = false.
Proof.
  intros H. unfold disconnect. destruct (wsRef s) as [j|] eqn:Ej.
  - simpl. split; [reflexivity|]. intros i ws Hi.
    rewrite list_lookup_alter in Hi.
    destruct (decide (j = i)) as [->|Hji].
    + destruct (sockets s !! i) as [w|]; [|discriminate].
      simpl in Hi. injection Hi as <-. unfold live, WebSocket.close.
      destruct (WebSocket.readyState w) eqn:Er; simpl; try reflexivity;
        now rewrite Er.
    + destruct (live ws) eqn:El; [|reflexivity].
      specialize (H i ws Hi El). congruence.
  - split; [exact Ej|]. intros i ws Hi.
    destruct (live ws) eqn:El; [|reflexivity].
    now specialize (H i ws Hi El).
Qed.

Lemma filter_none {A} (P : A -> bool) (l : list A) :
  (forall x, x ∈ l -> P x = false) -> filter (fun x => P x = true) l = [].
Proof.
  induction l as [|a l IH]; intros H; [reflexivity|].
  rewrite filter_cons_False.
  - apply IH. intros x Hx. apply H. now right.
  - rewrite (H a); [discriminate | now left].
Qed.

Lemma at_most_one_index {A} (P : A -> bool) (l : list A) :
  (forall i j x y, l !! i = Some x -> l !! j = Some y ->
                   P x = true -> P y = true -> i = j) ->
  length (filter (fun x => P x = true) l) <= 1.
Proof.
  induction l as [|a l IH]; intros H; [cbv; lia|].
  destruct (P a) eqn:Ea.
  - rewrite filter_cons_True by exact Ea. simpl.
    assert (Hnone : filter (fun x => P x = true) l = []).
    { apply filter_none. intros x Hin.
      apply list_elem_of_lookup in Hin as [k Hk].
      destruct (P x) eqn:Hx; [|reflexivity].
      specialize (H 0 (S k) a x eq_refl Hk Ea Hx). discriminate. }
    rewrite Hnone. simpl. lia.
  - rewrite filter_cons_False by congruence. apply IH.
    intros i j x y Hi Hj Hx Hy.
    specialize (H (S i) (S j) x y Hi Hj Hx Hy). lia.
Qed.

(** When [connect] is called only from the page's effect, whose cleanup
    is [disconnect], every socket that is connecting or open is the one
    [wsRef] points to: at most one session is live at any time, whatever
    else happens (sends, frames, socket events, timer ticks, calls of
    [disconnect], unmount). *)
Theorem effect_keeps_one_live_session JSON_parse pes :
  forallb connect_in_effect_only pes = true ->
  let s := page_run JSON_parse initial pes in
  (forall i ws, sockets s !! i = Some ws -> live ws = true -> wsRef s = Some i)
  /\ length (filter (fun ws => live ws = true) (sockets s)) <= 1.
Proof.
  intros Hp s.
  assert (G : forall i ws, sockets s !! i = Some ws -> live ws = true ->
                           wsRef s = Some i).
  { subst s. revert Hp.
    assert (H0 : forall i ws, sockets initial !! i = Some ws -> live ws = true ->
                              wsRef initial = Some i) by (intros i ws; discriminate).
    revert H0. generalize initial as s.
    induction pes as [|pe pes IH]; intros s H Hp; [exact H|].
    simpl in Hp. apply andb_true_iff in Hp as [Hpe Hpes].
    apply (IH (page_step JSON_parse s pe)); [|exact Hpes].
    destruct pe as [a tok| |e]; simpl.
    - destruct (disconnect_no_live s H) as [Hw Hl].
      unfold connect_effect. destruct a.
      + destruct tok as [[|c tok]|]; simpl.
        * intros i ws Hi Hlive. rewrite (Hl i ws Hi) in Hlive. discriminate.
        * intros i ws Hi Hlive.
          destruct (decide (i < length (sockets (disconnect s)))) as [Hlt|Hge].
          -- rewrite lookup_app_l in Hi by exact Hlt.
             rewrite (Hl i ws Hi) in Hlive. discriminate.
          -- rewrite lookup_app_r in Hi by lia.
             destruct (i - length (sockets (disconnect s))) as [|k] eqn:Ek;
               [|destruct k; discriminate].
             f_equal. lia.
        * intros i ws Hi Hlive. rewrite (Hl i ws Hi) in Hlive. discriminate.
      + intros i ws Hi Hlive. rewrite (Hl i ws Hi) in Hlive. discriminate.
    - apply (live_inv_step JSON_parse Disconnect (disconnect s)); [discriminate|].
      apply (live_inv_step JSON_parse Disconnect s); [discriminate|exact H].
    - apply live_inv_step; [|exact H].
      intros tok ->. discriminate. }
  split; [exact G|].
  apply at_most_one_index. intros i j x y Hi Hj Hx Hy.
  pose proof (G i x Hi Hx). pose proof (G j y Hj Hy). congruence.
Qed.

Lemma effect_keeps_one_live_session_witness :
  let pes := [ Render true (Some "tok"); FromHook (Opened 0);
               FromHook (SendMessage "c1" "Hi" clock0);
               Render false None; Render true (Some "tok2");
               FromHook (Opened 1); FromHook (Closed 0) ] in
  sessions (page_run sample_parse initial pes) = [CLOSED; OPEN]
  /\ length (filter (fun ws => live ws = true)
               (sockets (page_run sample_parse initial pes))) <= 1.
Proof.
  intros pes. split; [reflexivity|].
  apply (effect_keeps_one_live_session sample_parse pes). reflexivity.
Defined.

(** * The chat page *)

(** ** What the page sends *)

Lemma trim_start_no_space s : starts_with_space (trim_start s) = false.
Proof.
  induction s as [|c r IH]; [reflexivity|].
  simpl. destruct (is_space c) eqn:E; [exact IH | simpl; exact E].
Qed.

Lemma trim_end_head s :
  starts_with_space (trim_end s) = true -> starts_with_space s = true.
Proof.
  destruct s as [|c r]; [discriminate|]. simpl.
  destruct (trim_end r); [destruct (is_space c) eqn:E|]; simpl; congruence.
Qed.

Lemma trim_end_no_space s : ends_with_space (trim_end s) = false.
Proof.
  induction s as [|c r IH]; [reflexivity|].
  simpl. destruct (trim_end r) as [|c' r'] eqn:E.
  - destruct (is_space c) eqn:Ec; [reflexivity | simpl; exact Ec].
  - exact IH.
Qed.

Lemma trim_no_space s :
  starts_with_space (trim s) = false /\ ends_with_space (trim s) = false.
Proof.
  unfold trim. split; [|apply trim_end_no_space].
  destruct (starts_with_space (trim_end (trim_start s))) eqn:E; [|reflexivity].
  apply trim_end_head in E. now rewrite trim_start_no_space in E.
Qed.

(** Whatever the input field and the selection hold, [handleSendMessage]
    either leaves the hook as it is, or appends exactly one user message
    and its placeholder; the content of that user message is the trimmed
    input, it is not empty and has no white space at either end, the frame
    that goes out on the current socket carries the same text and the
    selected chat, and the input field is cleared.  The second case
    requires a selected chat, the streaming flag down and an open
    session. *)
Theorem handleSendMessage_cases clk p s :
  let text := trim (inputValue p) in
  snd (handleSendMessage clk p s) = s
  \/ (exists chat,
        selectedChat p = Some chat /\ chat <> ""
        /\ text <> ""
        /\ starts_with_space text = false /\ ends_with_space text = false
        /\ isStreaming s = false /\ session_open s = true
        /\ messages (snd (handleSendMessage clk p s))
           = messages s ++ [userMessage text clk; assistantMessage clk]
        /\ current_socket (snd (handleSendMessage clk p s))
           = WebSocket.send (MessageFrame chat text) <$> current_socket s
        /\ inputValue (fst (handleSendMessage clk p s)) = "").
Proof.
  intros text. unfold handleSendMessage. fold text.
  destruct (truthy text) eqn:Et; simpl; [|now left].
  destruct (selectedChat p) as [chat|] eqn:Ec; simpl; [|now left].
  destruct (truthy chat) eqn:Etc; simpl; [|now left].
  destruct (isStreaming s) eqn:Es; simpl; [now left|].
  destruct (session_open s) eqn:Eo; [|left; now apply sendMessage_not_open].
  right. exists chat.
  destruct (sendMessage_open chat text clk s Eo) as (Hm & _).
  destruct (trim_no_space (inputValue p)) as [Hs He].
  repeat split; auto.
  - intros ->. discriminate.
  - intros H. rewrite H in Et. discriminate.
  - now apply sendMessage_open_frame.
Qed.

(** ** The list of chats *)

(** [handleDeleteChat] removes the chats with the given id and no other:
    the chats left are those of the list with another id, in the same
    order, and the selection is untouched when another chat was
    selected. *)
Theorem handleDeleteChat_removes chatId seen now :
  let after := handleDeleteChat chatId seen now in
  (forall chat, chat ∈ ChatList.chats after
                <-> chat ∈ ChatList.chats now /\ Chat.chat_id chat <> chatId)
  /\ ChatList.chats after `sublist_of` ChatList.chats now
  /\ (is_selected (ChatList.selectedChat seen) chatId = false ->
      ChatList.selectedChat after = ChatList.selectedChat now).
Proof.
  simpl. split; [|split].
  - intros chat. rewrite !list_elem_of_In, filter_In.
    rewrite negb_true_iff, String.eqb_neq. reflexivity.
  - induction (ChatList.chats now) as [|c l IH]; simpl; [constructor|].
    destruct (negb _); [now apply sublist_skip | now apply sublist_cons].
  - now intros ->.
Qed.

(** When the chat that is deleted is the selected one and also the first
    of the list the handler saw, the selection stays on the deleted id,
    which no chat of the list carries any more. *)
Theorem handleDeleteChat_first_selected chatId seen now first rest :
  ChatList.selectedChat seen = Some chatId ->
  ChatList.chats seen = first :: rest ->
  Chat.chat_id first = chatId ->
  chatId <> "" ->
  let after := handleDeleteChat chatId seen now in
  ChatList.selectedChat after = Some chatId
  /\ chatId ∉ Chat.chat_id <$> ChatList.chats after.
Proof.
  intros Hsel Hch Hid Hne. simpl. unfold is_selected, first_chat_id.
  rewrite Hsel, Hch, Hid, String.eqb_refl.
  destruct chatId as [|c r]; [congruence|]. simpl. split; [reflexivity|].
  intros Hin. apply list_elem_of_fmap in Hin as (chat & Heq & Hin).
  apply list_elem_of_In, filter_In in Hin as [_ Hin].
  apply negb_true_iff, String.eqb_neq in Hin. congruence.
Qed.

Lemma handleDeleteChat_first_selected_witness :
  let c1 := Chat.mk "c1" "First" "t0" "t0" 2 in
  let c2 := Chat.mk "c2" "Second" "t1" "t1" 0 in
  let st := ChatList.mk [c1; c2] (Some "c1") None "" in
  ChatList.selectedChat (handleDeleteChat "c1" st st) = Some "c1"
  /\ "c1" ∉ Chat.chat_id <$> ChatList.chats (handleDeleteChat "c1" st st).
Proof.
  intros c1 c2 st.
  apply (handleDeleteChat_first_selected "c1" st st c1 [c2]).
  - reflexivity.
  - reflexivity.
  - reflexivity.
  - discriminate.
Defined.

(** [handleRenameChat] does nothing when the new title is empty or white
    space.  Otherwise it keeps the number, the order and the ids of the
    chats and the selection, changes no chat with another id, gives the
    chats with the given id the title as typed (not trimmed), and leaves
    the edit mode. *)
Theorem handleRenameChat_keeps_list chatId seen now :
  let after := handleRenameChat chatId seen now in
  (trim (ChatList.editTitle seen) = "" -> after = now)
  /\ (trim (ChatList.editTitle seen) <> "" ->
      Chat.chat_id <$> ChatList.chats after = Chat.chat_id <$> ChatList.chats now
      /\ (forall i chat,
            ChatList.chats now !! i = Some chat ->
            exists chat',
              ChatList.chats after !! i = Some chat'
              /\ (Chat.chat_id chat <> chatId -> chat' = chat)
              /\ (Chat.chat_id chat = chatId ->
                  chat' = Chat.with_title (ChatList.editTitle seen) chat))
      /\ ChatList.selectedChat after = ChatList.selectedChat now
      /\ ChatList.editingChatId after = None
      /\ ChatList.editTitle after = "").
Proof.
  simpl. unfold handleRenameChat. split.
  - now intros ->.
  - intros Hne. destruct (trim (ChatList.editTitle seen)) as [|c r] eqn:E; [congruence|].
    simpl. repeat split.
    + induction (ChatList.chats now) as [|x l IH]; [reflexivity|].
      simpl in *. rewrite ?fmap_cons. f_equal; [|exact IH].
      now destruct (String.eqb _ _).
    + intros i chat Hi.
      change (List.map ?f ?l) with (f <$> l). rewrite list_lookup_fmap, Hi. simpl.
      eexists. split; [reflexivity|]. split.
      * intros H. apply String.eqb_neq in H. now rewrite H.
      * intros H. apply String.eqb_eq in H. now rewrite H.
Qed.

(** A chat created and then deleted leaves the list as it was, provided
    the id the server gave was not already in the list; in between, the
    new chat is the first of the list and the selected one. *)
Theorem create_then_delete resp now1 now2 seen st chat :
  ApiResponse.data resp = Some chat ->
  created_chat_id chat ∉ Chat.chat_id <$> ChatList.chats st ->
  let created := handleCreateChat resp now1 now2 st in
  Chat.chat_id <$> head (ChatList.chats created) = Some (created_chat_id chat)
  /\ ChatList.selectedChat created = Some (created_chat_id chat)
  /\ ChatList.chats (handleDeleteChat (created_chat_id chat) seen created)
     = ChatList.chats st.
Proof.
  intros Hd Hfresh. unfold handleCreateChat. rewrite Hd. simpl.
  rewrite String.eqb_refl. simpl. repeat split.
  induction (ChatList.chats st) as [|x l IH]; [reflexivity|].
  rewrite fmap_cons in Hfresh. apply not_elem_of_cons in Hfresh as [Hx Hl].
  simpl. destruct (String.eqb (Chat.chat_id x) (created_chat_id chat)) eqn:E.
  - apply String.eqb_eq in E. congruence.
  - simpl. f_equal. now apply IH.
Qed.

Lemma create_then_delete_witness :
  let c1 := Chat.mk "c1" "First" "t0" "t0" 2 in
  let st := ChatList.mk [c1] (Some "c1") None "" in
  let resp := ApiResponse.mk (Some (mkCreatedChat "c9" "New Chat")) None in
  ChatList.chats
    (handleDeleteChat "c9" st (handleCreateChat resp "t5" "t5" st))
  = [c1].
Proof.
  intros c1 st resp.
  destruct (create_then_delete resp "t5" "t5" st st (mkCreatedChat "c9" "New Chat"))
    as (_ & _ & H).
  - reflexivity.
  - simpl. intros Hin. apply list_elem_of_singleton in Hin. discriminate.
  - exact H.
Defined.

(** * The authentication context and the connection *)

Lemma remove_tokens_lookup (ls : gmap string string) :
  remove_tokens ls !! "access_token" = None
  /\ remove_tokens ls !! "refresh_token" = None
  /\ forall k, k <> "access_token" -> k <> "refresh_token" ->
               remove_tokens ls !! k = ls !! k.
Proof.
  unfold remove_tokens. split; [|split].
  - rewrite lookup_delete_ne by discriminate. apply lookup_delete_eq.
  - apply lookup_delete_eq.
  - intros k H1 H2. now rewrite !lookup_delete_ne by congruence.
Qed.

(** After [logout], whatever the server answered, the user is gone, both
    tokens are removed from [localStorage] and every other key is kept;
    [connect] then does nothing, and the chat page's effect closes the
    session and opens none. *)
Theorem logout_disconnects JSON_parse st s :
  let st' := logout st in
  Auth.isAuthenticated st' = false
  /\ Auth.localStorage st' !! "access_token" = None
  /\ Auth.localStorage st' !! "refresh_token" = None
  /\ (forall k, k <> "access_token" -> k <> "refresh_token" ->
                Auth.localStorage st' !! k = Auth.localStorage st !! k)
  /\ connect (Auth.localStorage st' !! "access_token") s = s
  /\ page_step JSON_parse s (render_with st') = disconnect s.
Proof.
  simpl. destruct (remove_tokens_lookup (Auth.localStorage st)) as (Ha & Hr & Hk).
  repeat split; auto. now rewrite Ha.
Qed.

(** [login] succeeds exactly when the response has no error message and
    carries data.  Then both tokens are in [localStorage], the user is
    authenticated, and the chat page's effect opens a session when the
    access token is not empty.  Otherwise nothing is stored, the state is
    unchanged, and the error message returned is not empty. *)
Theorem login_outcome JSON_parse resp st s :
  let r := fst (login resp st) in
  let st' := snd (login resp st) in
  (success r = true <->
   truthy_or_null (ApiResponse.error resp) = false
   /\ is_Some (ApiResponse.data resp))
  /\ (success r = false ->
      st' = st /\ truthy_or_null (result_error r) = true)
  /\ (forall d, success r = true -> ApiResponse.data resp = Some d ->
      Auth.localStorage st' !! "access_token" = Some (access_token d)
      /\ Auth.localStorage st' !! "refresh_token" = Some (refresh_token d)
      /\ Auth.user st' = Some (login_user d)
      /\ Auth.isAuthenticated st' = true
      /\ (access_token d <> "" ->
          sessions (page_step JSON_parse s (render_with st'))
          = sessions (disconnect s) ++ [CONNECTING])).
Proof.
  simpl. unfold login.
  destruct (truthy_or_null (ApiResponse.error resp)) eqn:Ee; simpl.
  - split; [|split].
    + split; [discriminate | now intros [? _]].
    + intros _. now split.
    + discriminate.
  - destruct (ApiResponse.data resp) as [d|] eqn:Ed; simpl.
    + split; [|split].
      * split; [now eauto | reflexivity].
      * discriminate.
      * intros d' _ [= <-].
        rewrite lookup_insert_ne by discriminate.
        rewrite !lookup_insert_eq. repeat split.
        intros Hne. unfold connect.
        destruct (access_token d) as [|c tok]; [congruence|].
        unfold sessions. simpl. now rewrite fmap_app.
    + split; [|split].
      * split; [discriminate | intros [_ [? ?]]; discriminate].
      * intros _. now split.
      * discriminate.
Qed.

(** [checkAuth] always ends with [isLoading] false.  Either the stored
    token was usable and the profile came back without error, and the
    user is that of the profile; or the user is left as it was, and then
    either no request was made and [localStorage] is untouched (no token),
    or both tokens are removed, after which [connect] does nothing. *)
Theorem checkAuth_outcome token profile st s :
  let st' := checkAuth token profile st in
  Auth.isLoading st' = false
  /\ ((exists d, truthy_or_null token = true
                 /\ ApiResponse.data profile = Some d
                 /\ truthy_or_null (ApiResponse.error profile) = false
                 /\ Auth.user st' = Some (profile_user d)
                 /\ Auth.localStorage st' = Auth.localStorage st)
      \/ (Auth.user st' = Auth.user st
          /\ ((truthy_or_null token = false
               /\ Auth.localStorage st' = Auth.localStorage st)
              \/ (Auth.localStorage st' = remove_tokens (Auth.localStorage st)
                  /\ connect (Auth.localStorage st' !! "access_token") s = s)))).
Proof.
  simpl. unfold checkAuth.
  destruct (remove_tokens_lookup (Auth.localStorage st)) as (Ha & _).
  destruct (truthy_or_null token) eqn:Et.
  - destruct (ApiResponse.data profile) as [d|] eqn:Ed.
    + destruct (truthy_or_null (ApiResponse.error profile)) eqn:Ee; simpl.
      * split; [reflexivity|]. right. split; [reflexivity|]. right.
        split; [reflexivity|]. now rewrite Ha.
      * split; [reflexivity|]. left. exists d. repeat split.
    + simpl. split; [reflexivity|]. right. split; [reflexivity|]. right.
      split; [reflexivity|]. now rewrite Ha.
  - simpl. split; [reflexivity|]. right. split; [reflexivity|]. left. now split.
Qed.
